(** * The Trillium Model knowledge base: sectionizer, gateway and session stores

    A shallow embedding of [src/App.tsx] and [src/services/geminiService.ts].
    JavaScript strings are sequences of UTF-16 code units; objects used as
    dictionaries are finite maps; the asynchronous gateway operations are
    computations in a small trace-and-exception monad; the React components
    are transition systems over their [useState] cells. *)

From Stdlib Require Import ZArith NArith Lia Bool Ascii String.
From stdpp Require Import base option list gmap fin_sets.

Local Open Scope Z_scope.

(** ** JavaScript strings *)

Module JS.

(** A JS string is a finite sequence of 16-bit code units. *)
Abbreviation jsstring := (list N).

(** An ASCII literal of the source, as a JS string. *)
Definition lit (s : string) : jsstring :=
  List.map N_of_ascii (list_ascii_of_string s).

Definition LF : N := 10%N.
Definition DQUOTE : N := 34%N.

Definition jsstring_eqb (a b : jsstring) : bool := bool_decide (a = b).

(** [s.length > 0] *)
Definition nonempty (s : jsstring) : bool :=
  match s with [] => false | _ :: _ => true end.

(** ECMAScript WhiteSpace and LineTerminator code points, the characters
    removed by [String.prototype.trim]. *)
Definition isWhiteSpace (c : N) : bool :=
  bool_decide (c ∈ [9; 10; 11; 12; 13; 32; 160; 5760;
                    8192; 8193; 8194; 8195; 8196; 8197; 8198; 8199; 8200;
                    8201; 8202; 8232; 8233; 8239; 8287; 12288; 65279]%N).

Fixpoint trimStart (s : jsstring) : jsstring :=
  match s with
  | c :: s' => if isWhiteSpace c then trimStart s' else s
  | [] => []
  end.

Definition trimEnd (s : jsstring) : jsstring := rev (trimStart (rev s)).

(** [s.trim()] *)
Definition trim (s : jsstring) : jsstring := trimEnd (trimStart s).

(** [s.startsWith(p)] *)
Fixpoint startsWith (s p : jsstring) : bool :=
  match p, s with
  | [], _ => true
  | _ :: _, [] => false
  | a :: p', b :: s' => if bool_decide (a = b) then startsWith s' p' else false
  end.

(** [s.split('\n')]: the pieces between line feeds; never the empty array. *)
Fixpoint split_lines (s : jsstring) : list jsstring :=
  match s with
  | [] => [[]]
  | c :: s' =>
      if bool_decide (c = LF) then [] :: split_lines s'
      else match split_lines s' with
           | l :: ls => (c :: l) :: ls
           | [] => [[c]]
           end
  end.

(** Position of the first occurrence of [p] in [s], counted from [i]. *)
Fixpoint indexFrom (i : Z) (s p : jsstring) : Z :=
  if startsWith s p then i
  else match s with
       | [] => -1
       | _ :: s' => indexFrom (i + 1) s' p
       end.

(** [s.indexOf(p)]: the first position, or -1. *)
Definition indexOf (s p : jsstring) : Z := indexFrom 0 s p.

(** [s.substring(a, b)]: both ends are clamped to [0, s.length] and swapped
    when out of order. *)
Definition substring (s : jsstring) (a b : Z) : jsstring :=
  let len := Z.of_nat (length s) in
  let a' := Z.min (Z.max a 0) len in
  let b' := Z.min (Z.max b 0) len in
  let from := Z.min a' b' in
  let to := Z.max a' b' in
  take (Z.to_nat (to - from)) (drop (Z.to_nat from) s).

(** [s.replace(p, r)] for a string pattern [p] and a replacement [r] without
    dollar patterns: only the first occurrence is replaced. *)
Fixpoint replaceFirst (s p r : jsstring) : jsstring :=
  if startsWith s p then r ++ drop (length p) s
  else match s with
       | [] => []
       | c :: s' => c :: replaceFirst s' p r
       end.

(** [s.replace(/^## /, '')]: the pattern is anchored at the start. *)
Definition stripHeadingMarker (s : jsstring) : jsstring :=
  if startsWith s (lit "## ") then drop 3 s else s.

End JS.
Import JS.

(** ** The sectionizer ([parseSections], App.tsx) *)

Record DocSection := mkSection { title : jsstring; content : jsstring }.

(** The test of the loop, [line.trim().startsWith('##')]. *)
Definition isHeadingLine (line : jsstring) : bool :=
  startsWith (trim line) (lit "##").

(** The title given to the section a heading line opens. *)
Definition headingTitle (line : jsstring) : jsstring :=
  stripHeadingMarker (trim line).

(** [{ ...currentSection, content: currentSection.content.trim() }] *)
Definition trimmed (s : DocSection) : DocSection :=
  mkSection (title s) (trim (content s)).

(** One iteration of [for (const line of lines)], on the pair of the
    [sections] array and [currentSection]. *)
Definition scanLine (st : list DocSection * DocSection) (line : jsstring)
  : list DocSection * DocSection :=
  let '(sections, currentSection) := st in
  if isHeadingLine line then
    (if nonempty (trim (content currentSection))
        && negb (jsstring_eqb (title currentSection) (lit "Abstract"))
     then sections ++ [trimmed currentSection]
     else sections,
     mkSection (headingTitle line) [])
  else
    (sections,
     mkSection (title currentSection)
               (content currentSection ++ line ++ [LF])).

(** The section pushed before the loop: the span between the two literal
    markers, without the first marker, trimmed. *)
Definition abstractSection (text : jsstring) : DocSection :=
  let abstractContent :=
    substring text (indexOf text (lit "## Abstract"))
                   (indexOf text (lit "## I. The Core Framework")) in
  mkSection (lit "Abstract")
            (trim (replaceFirst abstractContent (lit "## Abstract") [])).

Definition parseSections (text : jsstring) : list DocSection :=
  let lines := split_lines text in
  let '(sections, currentSection) :=
    fold_left scanLine lines
              ([abstractSection text], mkSection (lit "Abstract") []) in
  if nonempty (trim (content currentSection))
  then sections ++ [trimmed currentSection]
  else sections.

(** *** Heading-delimited blocks

    The reading of the document the loop implements: the lines before the
    first heading line form a block under the placeholder title, and every
    heading line opens a block that runs to the next heading line. *)

Record Block := mkBlock { blockTitle : jsstring; blockBody : jsstring }.

(** The text the loop accumulates from the lines up to the next heading. *)
Fixpoint bodyText (lines : list jsstring) : jsstring :=
  match lines with
  | [] => []
  | l :: ls => if isHeadingLine l then [] else l ++ [LF] ++ bodyText ls
  end.

Fixpoint headingBlocks (lines : list jsstring) : list Block :=
  match lines with
  | [] => []
  | l :: ls =>
      if isHeadingLine l
      then mkBlock (headingTitle l) (bodyText ls) :: headingBlocks ls
      else headingBlocks ls
  end.

Definition allBlocks (lines : list jsstring) : list Block :=
  mkBlock (lit "Abstract") (bodyText lines) :: headingBlocks lines.

Definition headingLines (text : jsstring) : list jsstring :=
  filter (fun l => isHeadingLine l = true) (split_lines text).

Definition isBlank (b : Block) : bool := negb (nonempty (trim (blockBody b))).

Definition titledAbstract (b : Block) : bool :=
  jsstring_eqb (blockTitle b) (lit "Abstract").

(** Which blocks become sections: a block closed by a later heading must be
    non-blank and not titled Abstract, the block open at the end of the
    input must be non-blank. *)
Fixpoint emitted (bs : list Block) : list Block :=
  match bs with
  | [] => []
  | [b] => if isBlank b then [] else [b]
  | b :: (_ :: _) as bs' =>
      if negb (isBlank b) && negb (titledAbstract b)
      then b :: emitted bs' else emitted bs'
  end.

Definition sectionOf (b : Block) : DocSection :=
  mkSection (blockTitle b) (trim (blockBody b)).

(** Every block of the list becomes a section. *)
Fixpoint allKept (bs : list Block) : bool :=
  match bs with
  | [] => true
  | [b] => negb (isBlank b)
  | b :: (_ :: _) as bs' =>
      negb (isBlank b) && negb (titledAbstract b) && allKept bs'
  end.

(** ** JSON values and [JSON.parse]

    [geminiService.ts] hands the trimmed response text to the built-in
    [JSON.parse] and returns whatever it yields.  The gateway is stated over
    an arbitrary parser; [JSON.parse_model] is a reference parser for the
    JSON grammar (ECMA-404), used to run the gateway on concrete texts.  A
    number is kept as its lexeme; an object keeps its members in source
    order, the last one winning on lookup as in JavaScript. *)

Module JSON.

#[warnings="-register-all"] Inductive value :=
| JNull
| JBool (b : bool)
| JNumber (lexeme : jsstring)
| JString (s : jsstring)
| JArray (items : list value)
| JObject (members : list (jsstring * value)).

(** [o.k] on a parsed value: the member if [o] is an object that has it. *)
Definition getProp (o : value) (k : jsstring) : option value :=
  match o with
  | JObject ms => snd <$> head (filter (fun m => m.1 = k) (rev ms))
  | _ => None
  end.

Inductive result (A : Type) :=
| Parsed (a : A) (rest : jsstring)
| SyntaxError
| OutOfFuel.
Arguments Parsed {A}.
Arguments SyntaxError {A}.
Arguments OutOfFuel {A}.

Definition isJsonWs (c : N) : bool := bool_decide (c ∈ [9; 10; 13; 32]%N).

Fixpoint skipWs (s : jsstring) : jsstring :=
  match s with
  | c :: s' => if isJsonWs c then skipWs s' else s
  | [] => []
  end.

Definition isDigit (c : N) : bool := (48 <=? c)%N && (c <=? 57)%N.

Definition hexDigit (c : N) : option N :=
  if isDigit c then Some (c - 48)%N
  else if (97 <=? c)%N && (c <=? 102)%N then Some (c - 87)%N
  else if (65 <=? c)%N && (c <=? 70)%N then Some (c - 55)%N
  else None.

(** The characters of a string literal after its opening quote. *)
Fixpoint parseChars (s : jsstring) : result jsstring :=
  match s with
  | [] => SyntaxError
  | 34%N :: r => Parsed [] r
  | 92%N :: e :: r =>
      let unit_ (c : N) (r' : jsstring) :=
        match parseChars r' with
        | Parsed cs r'' => Parsed (c :: cs) r''
        | other => other
        end in
      match e, r with
      | 34%N, _ => unit_ 34%N r
      | 92%N, _ => unit_ 92%N r
      | 47%N, _ => unit_ 47%N r
      | 98%N, _ => unit_ 8%N r
      | 102%N, _ => unit_ 12%N r
      | 110%N, _ => unit_ 10%N r
      | 114%N, _ => unit_ 13%N r
      | 116%N, _ => unit_ 9%N r
      | 117%N, h1 :: h2 :: h3 :: h4 :: r' =>
          match hexDigit h1, hexDigit h2, hexDigit h3, hexDigit h4 with
          | Some a, Some b, Some c, Some d =>
              match parseChars r' with
              | Parsed cs r'' =>
                  Parsed ((((a * 16 + b) * 16 + c) * 16 + d)%N :: cs) r''
              | other => other
              end
          | _, _, _, _ => SyntaxError
          end
      | _, _ => SyntaxError
      end
  | 92%N :: [] => SyntaxError
  | c :: r =>
      if (c <? 32)%N then SyntaxError
      else match parseChars r with
           | Parsed cs r' => Parsed (c :: cs) r'
           | other => other
           end
  end.

Definition isNumberChar (c : N) : bool :=
  isDigit c || bool_decide (c ∈ lit "-+.eE").

Fixpoint spanNumber (s : jsstring) : jsstring * jsstring :=
  match s with
  | c :: r => if isNumberChar c
              then let '(n, r') := spanNumber r in (c :: n, r')
              else ([], s)
  | [] => ([], [])
  end.

Fixpoint dropDigits (s : jsstring) : jsstring :=
  match s with
  | c :: r => if isDigit c then dropDigits r else s
  | [] => []
  end.

(** One or more digits, then the rest. *)
Definition digits1 (s : jsstring) : option jsstring :=
  match s with
  | c :: r => if isDigit c then Some (dropDigits r) else None
  | [] => None
  end.

(** The number grammar: an optional minus sign; a zero, or a non-zero digit
    and further digits; optionally a point and digits; optionally an
    exponent mark, a sign and digits. *)
Definition validNumber (l : jsstring) : bool :=
  let afterSign := match l with 45%N :: r => r | _ => l end in
  let afterInt :=
    match afterSign with
    | 48%N :: r => Some r
    | c :: r => if isDigit c then Some (dropDigits r) else None
    | [] => None
    end in
  let afterFrac :=
    match afterInt with
    | Some (46%N :: r) => digits1 r
    | other => other
    end in
  let afterExp :=
    match afterFrac with
    | Some (c :: r) =>
        if bool_decide (c ∈ lit "eE") then
          match r with
          | d :: r' => if bool_decide (d ∈ lit "+-") then digits1 r' else digits1 r
          | [] => None
          end
        else Some (c :: r)
    | other => other
    end in
  match afterExp with Some [] => true | _ => false end.

Definition parseLiteral (s : jsstring) : result value :=
  if startsWith s (lit "true") then Parsed (JBool true) (drop 4 s)
  else if startsWith s (lit "false") then Parsed (JBool false) (drop 5 s)
  else if startsWith s (lit "null") then Parsed JNull (drop 4 s)
  else let '(n, r) := spanNumber s in
       if validNumber n then Parsed (JNumber n) r else SyntaxError.

Fixpoint parseValue (fuel : nat) (s : jsstring) : result value :=
  match fuel with
  | O => OutOfFuel
  | S fuel' =>
      match skipWs s with
      | 123%N :: r =>
          match skipWs r with
          | 125%N :: r' => Parsed (JObject []) r'
          | _ => parseMembers fuel' r []
          end
      | 91%N :: r =>
          match skipWs r with
          | 93%N :: r' => Parsed (JArray []) r'
          | _ => parseElements fuel' r []
          end
      | 34%N :: r =>
          match parseChars r with
          | Parsed cs r' => Parsed (JString cs) r'
          | SyntaxError => SyntaxError
          | OutOfFuel => OutOfFuel
          end
      | other => parseLiteral other
      end
  end
with parseElements (fuel : nat) (s : jsstring) (acc : list value) : result value :=
  match fuel with
  | O => OutOfFuel
  | S fuel' =>
      match parseValue fuel' s with
      | Parsed v r =>
          match skipWs r with
          | 44%N :: r' => parseElements fuel' r' (v :: acc)
          | 93%N :: r' => Parsed (JArray (rev (v :: acc))) r'
          | _ => SyntaxError
          end
      | other => other
      end
  end
with parseMembers (fuel : nat) (s : jsstring) (acc : list (jsstring * value))
  : result value :=
  match fuel with
  | O => OutOfFuel
  | S fuel' =>
      match skipWs s with
      | 34%N :: r =>
          match parseChars r with
          | Parsed k r1 =>
              match skipWs r1 with
              | 58%N :: r2 =>
                  match parseValue fuel' r2 with
                  | Parsed v r3 =>
                      match skipWs r3 with
                      | 44%N :: r4 => parseMembers fuel' r4 ((k, v) :: acc)
                      | 125%N :: r4 => Parsed (JObject (rev ((k, v) :: acc))) r4
                      | _ => SyntaxError
                      end
                  | other => other
                  end
              | _ => SyntaxError
              end
          | SyntaxError => SyntaxError
          | OutOfFuel => OutOfFuel
          end
      | _ => SyntaxError
      end
  end.

(** Outcome of [JSON.parse(text)]: the value, or a thrown [SyntaxError]. *)
Inductive outcome :=
| Value (v : value)
| Throws
| Unknown.

(** The fuel bounds the chain of recursive calls.  Running out of it is
    reported as [Unknown], apart from a syntax error, so that [Throws] always
    stands for a text the grammar rejects. *)
Definition parse_model (text : jsstring) : outcome :=
  match parseValue (2 * length text + 2) text with
  | Parsed v r => match skipWs r with [] => Value v | _ => Throws end
  | SyntaxError => Throws
  | OutOfFuel => Unknown
  end.

End JSON.

(** ** The language-model gateway ([geminiService.ts]) *)

Module Gateway.

(** A thrown value: an [Error] with its message. *)
Record Error := mkError { message : jsstring }.

(** How a promise settles. *)
Inductive Outcome (A : Type) :=
| Resolved (a : A)
| Rejected (e : Error).
Arguments Resolved {A}.
Arguments Rejected {A}.

(** The response schema of the quiz request ([Type.OBJECT], [Type.ARRAY],
    [Type.STRING]). *)
#[warnings="-register-all"] Inductive Schema :=
| TString
| TArray (items : Schema)
| TObject (properties : list (jsstring * Schema)) (propertyOrdering : list jsstring).

Record Config := mkConfig {
  responseMimeType : jsstring;
  responseSchema : Schema
}.

(** The argument of [ai.models.generateContent]. *)
Record Request := mkRequest {
  model : jsstring;
  contents : jsstring;
  config : option Config
}.

(** The remote completion: a response whose [text] is a string, a response
    whose [text] is [undefined] (no candidate text, as for a blocked
    prompt), or a failure. *)
Inductive Response :=
| Text (text : jsstring)
| NoText
| Failure (e : Error).

Definition Client := Request -> Response.

(** What an operation does besides settling. *)
Inductive Effect :=
| ConsoleError (args : list jsstring)
| GenerateContent (req : Request)
| JsonParse (text : jsstring).

(** An operation: the effects it performed, in order, and how it settled. *)
Definition Op (A : Type) : Type := list Effect * Outcome A.

Definition ret {A} (a : A) : Op A := ([], Resolved a).
Definition throw {A} (e : Error) : Op A := ([], Rejected e).

Definition bind {A B} (m : Op A) (k : A -> Op B) : Op B :=
  match m with
  | (tr, Resolved a) => let '(tr', r) := k a in (tr ++ tr', r)
  | (tr, Rejected e) => (tr, Rejected e)
  end.

(** [try { m } catch (error) { h error }] *)
Definition tryCatch {A} (m : Op A) (h : Error -> Op A) : Op A :=
  match m with
  | (tr, Rejected e) => let '(tr', r) := h e in (tr ++ tr', r)
  | settled => settled
  end.

Notation "'let*' x ':=' m 'in' k" := (bind m (fun x => k))
  (at level 10, x name, m at level 100, k at level 200).

Definition trace {A} (m : Op A) : list Effect := fst m.
Definition settles {A} (m : Op A) : Outcome A := snd m.

Definition console_error (args : list jsstring) : Op unit :=
  ([ConsoleError args], Resolved tt).

Definition modelName : jsstring := lit "gemini-2.5-flash".

Definition apiKeyMessage : jsstring :=
  lit "API Key is not configured. Please set up the process.env.API_KEY environment variable.".

Definition summaryFallback : jsstring := lit "Failed to generate summary.".
Definition answerFallback : jsstring :=
  lit "Failed to get an answer. Please try again.".
Definition quizFailure : jsstring :=
  lit "Failed to generate quiz. Please try again.".
Definition formatFailure : jsstring := lit "Invalid response format from API.".

Definition summaryPrompt (sectionTitle sectionContent : jsstring) : jsstring :=
  lit "Summarize the following section from a theoretical physics report in a concise paragraph. Do not use markdown headers or titles. Do not introduce the summary with phrases like "
  ++ [DQUOTE] ++ lit "This section is about" ++ [DQUOTE] ++ lit " or "
  ++ [DQUOTE] ++ lit "In this section..." ++ [DQUOTE]
  ++ lit ". Just provide the summary." ++ [LF; LF]
  ++ lit "Section Title: " ++ sectionTitle ++ [LF]
  ++ lit "Section Content: " ++ sectionContent.

Definition answerPrompt (reportText question : jsstring) : jsstring :=
  lit "Based on the following document, answer the user's question. If the information is not in the document, state that you cannot answer."
  ++ [LF; LF] ++ lit "Document:" ++ [LF] ++ reportText ++ [LF; LF]
  ++ lit "Question: " ++ question.

Definition quizPrompt (reportText : jsstring) : jsstring :=
  lit "Create a 5-question multiple-choice quiz based on the following document. The response must be a valid JSON object with a single 'quiz' key. The value of 'quiz' should be an array of objects. Each object in the array must have the following keys: 'question' (string), 'options' (array of strings, exactly 4 options), and 'correctAnswer' (string, the correct option). Do not include any other text in the response, just the JSON."
  ++ [LF; LF] ++ lit "Document:" ++ [LF] ++ reportText.

Definition quizSchema : Schema :=
  TObject
    [(lit "quiz",
      TArray (TObject [(lit "question", TString);
                       (lit "options", TArray TString);
                       (lit "correctAnswer", TString)]
                      [lit "question"; lit "options"; lit "correctAnswer"]))]
    [].

Definition quizConfig : Config := mkConfig (lit "application/json") quizSchema.

(** The shape the prompt asks for, read off a parsed value: the list under
    [quiz], each entry with its [options] and [correctAnswer]. *)
Definition asString (v : JSON.value) : option jsstring :=
  match v with JSON.JString s => Some s | _ => None end.

Definition asStrings (v : JSON.value) : option (list jsstring) :=
  match v with
  | JSON.JArray items => mapM asString items
  | _ => None
  end.

Definition quizEntries (v : JSON.value) : option (list JSON.value) :=
  match JSON.getProp v (lit "quiz") with
  | Some (JSON.JArray qs) => Some qs
  | _ => None
  end.

(** Exactly four options, and [correctAnswer] among them. *)
Definition wellFormedQuestion (q : JSON.value) : bool :=
  match JSON.getProp q (lit "options") ≫= asStrings,
        JSON.getProp q (lit "correctAnswer") ≫= asString with
  | Some options, Some correctAnswer =>
      bool_decide (length options = 4%nat) && bool_decide (correctAnswer ∈ options)
  | _, _ => false
  end.

(** Exactly five questions, each well formed. *)
Definition wellFormedQuiz (v : JSON.value) : bool :=
  match quizEntries v with
  | Some qs => bool_decide (length qs = 5%nat) && forallb wellFormedQuestion qs
  | None => false
  end.

Section Service.

(** [process.env.API_KEY], the constructor of the client and the runtime's
    [JSON.parse] are given from outside. *)
Variable API_KEY : option jsstring.
Variable GoogleGenAI : jsstring -> Client.
Variable JSON_parse : jsstring -> option JSON.value.

(** [API_KEY ? new GoogleGenAI({ apiKey: API_KEY }) : null]; the empty
    string is falsy like [undefined]. *)
Definition ai : option Client :=
  match API_KEY with
  | Some key => if nonempty key then Some (GoogleGenAI key) else None
  | None => None
  end.

Definition checkApiKey : Op (option jsstring) :=
  match ai with
  | None => let* _ := console_error [apiKeyMessage] in ret (Some apiKeyMessage)
  | Some _ => ret None
  end.

(** [await ai!.models.generateContent(req)], then [response.text]: a
    string, or [None] for [undefined].  On a null client the member access
    throws a TypeError. *)
Definition generateContent (req : Request) : Op (option jsstring) :=
  match ai with
  | None => throw (mkError (lit "Cannot read properties of null (reading 'models')"))
  | Some client =>
      ([GenerateContent req],
       match client req with
       | Text t => Resolved (Some t)
       | NoText => Resolved None
       | Failure e => Rejected e
       end)
  end.

(** [JSON.parse(text)] *)
Definition jsonParse (text : jsstring) : Op JSON.value :=
  ([JsonParse text],
   match JSON_parse text with
   | Some v => Resolved v
   | None => Rejected (mkError (lit "Unexpected token in JSON"))
   end).

(** The two text operations return [response.text] as it is: what they
    resolve to is a string or, for a response without text, [undefined]
    ([None]), whatever the declared [Promise<string>] says. *)
Definition generateSummary (sectionTitle sectionContent : jsstring)
  : Op (option jsstring) :=
  let* apiKeyError := checkApiKey in
  match apiKeyError with
  | Some msg => ret (Some msg)
  | None =>
      let prompt := summaryPrompt sectionTitle sectionContent in
      tryCatch
        (generateContent (mkRequest modelName prompt None))
        (fun error =>
           let* _ := console_error [lit "Error generating summary:"; message error] in
           ret (Some summaryFallback))
  end.

Definition answerQuestion (reportText question : jsstring)
  : Op (option jsstring) :=
  let* apiKeyError := checkApiKey in
  match apiKeyError with
  | Some msg => ret (Some msg)
  | None =>
      let prompt := answerPrompt reportText question in
      tryCatch
        (generateContent (mkRequest modelName prompt None))
        (fun error =>
           let* _ := console_error [lit "Error answering question:"; message error] in
           ret (Some answerFallback))
  end.

Definition generateQuiz (reportText : jsstring) : Op JSON.value :=
  let* apiKeyError := checkApiKey in
  match apiKeyError with
  | Some msg => throw (mkError msg)
  | None =>
      let prompt := quizPrompt reportText in
      tryCatch
        (let* text := generateContent (mkRequest modelName prompt (Some quizConfig)) in
         match text with
         | None =>
             (* [response.text.trim()] on [undefined] *)
             throw (mkError (lit "Cannot read properties of undefined (reading 'trim')"))
         | Some text =>
             let jsonText := trim text in
             if negb (startsWith jsonText (lit "{")) && negb (startsWith jsonText (lit "["))
             then
               let* _ := console_error [lit "Received non-JSON response for quiz generation:"; jsonText] in
               throw (mkError formatFailure)
             else jsonParse jsonText
         end)
        (fun error =>
           let* _ := console_error [lit "Error generating quiz:"; message error] in
           throw (mkError quizFailure))
  end.

(** The request [generateQuiz] sends. *)
Definition quizRequest (reportText : jsstring) : Request :=
  mkRequest modelName (quizPrompt reportText) (Some quizConfig).

(** [!jsonText.startsWith('{') && !jsonText.startsWith('[')] *)
Definition notJsonLike (jsonText : jsstring) : bool :=
  negb (startsWith jsonText (lit "{")) && negb (startsWith jsonText (lit "[")).

(** The failure cases of [generateQuiz]. *)
Definition credentialMissing : Prop := ai = None.

Definition remoteFails (reportText : jsstring) : Prop :=
  exists client e, ai = Some client /\ client (quizRequest reportText) = Failure e.

Definition responseWithoutText (reportText : jsstring) : Prop :=
  exists client, ai = Some client /\ client (quizRequest reportText) = NoText.

Definition responseNotJsonLike (reportText : jsstring) : Prop :=
  exists client text,
    ai = Some client /\ client (quizRequest reportText) = Text text
    /\ notJsonLike (trim text) = true.

Definition responseUnparsable (reportText : jsstring) : Prop :=
  exists client text,
    ai = Some client /\ client (quizRequest reportText) = Text text
    /\ notJsonLike (trim text) = false /\ JSON_parse (trim text) = None.

Definition quizRaises (reportText : jsstring) : Prop :=
  exists e, settles (generateQuiz reportText) = Rejected e.

(** The failure cases as the specification lists them: these three and no
    other. *)
Definition raisesOnListedCasesOnly (reportText : jsstring) : Prop :=
  quizRaises reportText
  <-> credentialMissing \/ remoteFails reportText \/ responseNotJsonLike reportText.

(** The shape the specification promises of every successful result. *)
Definition successIsWellFormed (reportText : jsstring) : Prop :=
  forall v, settles (generateQuiz reportText) = Resolved v -> wellFormedQuiz v = true.

End Service.

(** [JSON.parse] as the reference parser models it. *)
Definition JSON_parse_model (text : jsstring) : option JSON.value :=
  match JSON.parse_model text with
  | JSON.Value v => Some v
  | _ => None
  end.

(** A configured client that answers every request with [text]. *)
Definition answering (text : jsstring) : jsstring -> Client :=
  fun _ _ => Text text.

(** A configured client whose every response is without text. *)
Definition blocked : jsstring -> Client := fun _ _ => NoText.

(** A configured client whose every request fails. *)
Definition failing : jsstring -> Client :=
  fun _ _ => Failure (mkError (lit "network error")).

Definition someKey : option jsstring := Some (lit "key").

End Gateway.

(** The members every object literal inherits from [Object.prototype]; all
    of them are functions or objects, hence truthy. *)
Definition objectPrototypeMembers : list jsstring :=
  [lit "constructor"; lit "__defineGetter__"; lit "__defineSetter__";
   lit "hasOwnProperty"; lit "__lookupGetter__"; lit "__lookupSetter__";
   lit "isPrototypeOf"; lit "propertyIsEnumerable"; lit "toString";
   lit "valueOf"; lit "__proto__"; lit "toLocaleString"].

Definition inheritedMember (k : jsstring) : bool :=
  bool_decide (k ∈ objectPrototypeMembers).

(** What [o[k]] reads from an object used as a dictionary: its own entry,
    else the inherited member of that name, else [undefined]. *)
Inductive Member (V : Type) :=
| Own (v : V)
| Inherited
| Absent.
Arguments Own {V}.
Arguments Inherited {V}.
Arguments Absent {V}.

Definition member {V} (o : gmap jsstring V) (k : jsstring) : Member V :=
  match o !! k with
  | Some v => Own v
  | None => if inheritedMember k then Inherited else Absent
  end.

(** JavaScript truthiness of a value that is a string or [undefined]
    ([None]). *)
Definition truthy (v : option jsstring) : bool :=
  match v with Some s => nonempty s | None => false end.

(** JavaScript truthiness of what was read. *)
Definition truthyText (m : Member (option jsstring)) : bool :=
  match m with Own v => truthy v | Inherited => true | Absent => false end.

Definition truthyBool (m : Member bool) : bool :=
  match m with Own b => b | Inherited => true | Absent => false end.

(** JavaScript truthiness of an own dictionary entry that may be missing. *)
Definition truthyString (o : option (option jsstring)) : bool :=
  match o with Some v => truthy v | None => false end.

Definition truthyFlag (o : option bool) : bool :=
  match o with Some b => b | None => false end.

(** ** The Summaries component (App.tsx)

    One mounted instance of the component: its three [useState] cells, and
    beside them the [generateSummary] promises that have not settled yet and
    the log of the calls made.  The two updates at the end of
    [callGenerateSummary] run in one task and are applied together; a render
    between them would change nothing (lemma [useEffect_between_updates]).
    The dictionaries are object literals: [summaries[title]] and
    [loading[title]] read an own entry or, for a title such as
    [constructor], the member inherited from [Object.prototype].  A stored
    summary is a string or, when [generateSummary] resolved to it,
    [undefined] ([None]). *)

Module Summaries.

Record State := mkState {
  summaries : gmap jsstring (option jsstring);
  loading : gmap jsstring bool;
  currentSectionIndex : nat;
  pending : list jsstring;
  issued : list (jsstring * jsstring)
}.

(** The state at mount, before the first effect. *)
Definition initial : State := mkState ∅ ∅ 0 [] [].

Section Component.

Variable sections : list DocSection.

(** [sections[currentSectionIndex]] *)
Definition currentSection (st : State) : option DocSection :=
  sections !! currentSectionIndex st.

(** [currentSection?.title] used as a key: [undefined] becomes the key
    ["undefined"]. *)
Definition currentKey (st : State) : jsstring :=
  match currentSection st with
  | Some s => title s
  | None => lit "undefined"
  end.

(** [callGenerateSummary] up to its [await]: the loading flag is set and the
    gateway is called. *)
Definition callGenerateSummary (sectionTitle sectionContent : jsstring)
    (st : State) : State :=
  mkState (summaries st)
          (<[sectionTitle := true]> (loading st))
          (currentSectionIndex st)
          (pending st ++ [sectionTitle])
          (issued st ++ [(sectionTitle, sectionContent)]).

(** The text [callGenerateSummary] stores: what [generateSummary] resolved
    to or, from the [catch], the failure text. *)
Definition storedText (o : Gateway.Outcome (option jsstring)) : option jsstring :=
  match o with
  | Gateway.Resolved summaryText => summaryText
  | Gateway.Rejected _ => Some (lit "Failed to generate summary.")
  end.

(** The first of the two updates alone, [setSummaries]. *)
Definition storeSummary (sectionTitle : jsstring) (summaryText : option jsstring)
    (st : State) : State :=
  mkState (<[sectionTitle := summaryText]> (summaries st))
          (loading st) (currentSectionIndex st) (pending st) (issued st).

(** [callGenerateSummary] after the [await], for the [i]-th pending call:
    [setSummaries] stores the text, then the [finally] clears the flag. *)
Definition settle (i : nat) (o : Gateway.Outcome (option jsstring)) (st : State) : State :=
  match pending st !! i with
  | None => st
  | Some sectionTitle =>
      let st1 := storeSummary sectionTitle (storedText o) st in
      mkState (summaries st1)
              (<[sectionTitle := false]> (loading st1))
              (currentSectionIndex st1)
              (delete i (pending st1))
              (issued st1)
  end.

(** The body of [useEffect]. *)
Definition useEffect (st : State) : State :=
  match currentSection st with
  | Some cur =>
      if negb (truthyText (member (summaries st) (title cur)))
         && negb (truthyBool (member (loading st) (title cur)))
      then callGenerateSummary (title cur) (content cur) st
      else st
  | None => st
  end.

Definition setCurrentSectionIndex (i : nat) (st : State) : State :=
  mkState (summaries st) (loading st) i (pending st) (issued st).

Definition handleNext (st : State) : State :=
  if bool_decide (Z.of_nat (currentSectionIndex st) < Z.of_nat (length sections) - 1)
  then setCurrentSectionIndex (currentSectionIndex st + 1) st
  else st.

Definition handlePrev (st : State) : State :=
  if bool_decide (0 < Z.of_nat (currentSectionIndex st))
  then setCurrentSectionIndex (currentSectionIndex st - 1) st
  else st.

(** The [disabled] attributes of the two buttons. *)
Definition prevDisabled (st : State) : bool :=
  bool_decide (currentSectionIndex st = 0%nat)
  || truthyBool (member (loading st) (currentKey st)).

Definition nextDisabled (st : State) : bool :=
  bool_decide (Z.of_nat (currentSectionIndex st) = Z.of_nat (length sections) - 1)
  || truthyBool (member (loading st) (currentKey st)).

Inductive Event :=
| ClickNext
| ClickPrev
| Settle (i : nat) (o : Gateway.Outcome (option jsstring)).

(** What an event does to the cells; a disabled button does nothing. *)
Definition apply (ev : Event) (st : State) : State :=
  match ev with
  | ClickNext => if nextDisabled st then st else handleNext st
  | ClickPrev => if prevDisabled st then st else handlePrev st
  | Settle i o => settle i o st
  end.

(** An event, the render it causes, and the effect after the render. *)
Definition step (st : State) (ev : Event) : State := useEffect (apply ev st).

(** Mounting runs the effect on the initial cells. *)
Definition mount : State := useEffect initial.

Definition run (evs : list Event) : State := fold_left step evs mount.

(** The gateway calls made so far for one title. *)
Definition callsFor (t : jsstring) (st : State) : nat :=
  length (filter (fun c => c.1 = t) (issued st)).

(** The calls for one title that have not settled. *)
Definition inFlight (t : jsstring) (st : State) : nat :=
  length (filter (fun p => p = t) (pending st)).

End Component.

(** No entry of the dictionaries, and no pending call, is for a title that
    names an inherited member: such a title reads as summarized from the
    start and is never requested. *)
Definition ownKeysPlain (st : State) : Prop :=
  forall t, inheritedMember t = true ->
            summaries st !! t = None /\ loading st !! t = None /\ t ∉ pending st.

(** A title that has a non-empty summary and no pending call. *)
Definition settled (t : jsstring) (st : State) : Prop :=
  truthyString (summaries st !! t) = true /\ t ∉ pending st.

(** What holds in every state the store reaches: the pending calls are for
    distinct titles, and they are the titles whose loading flag is set. *)
Record invariant (st : State) : Prop := {
  pending_nodup : NoDup (pending st);
  pending_loading :
    forall t, t ∈ pending st <-> truthyFlag (loading st !! t) = true
}.

End Summaries.

(** ** The Quiz component (App.tsx) and [QuizQuestion] (types.ts) *)

Record QuizQuestion := mkQuizQuestion {
  question : jsstring;
  options : list jsstring;
  correctAnswer : jsstring
}.

Module Quiz.

(** What [generateQuiz] resolves to, as [callGenerateQuiz] inspects it:
    possibly nothing, possibly without [quiz]. *)
Record QuizData := mkQuizData { quiz : option (list QuizQuestion) }.

Record State := mkState {
  questions : list QuizQuestion;
  loading : bool;
  userAnswers : gmap nat jsstring;
  showResults : bool;
  pending : nat;
  issued : nat;
  alerts : list jsstring
}.

Definition initial : State := mkState [] false ∅ false 0 0 [].

(** [callGenerateQuiz] up to its [await]. *)
Definition callGenerateQuiz (st : State) : State :=
  mkState [] true ∅ false (pending st + 1) (issued st + 1) (alerts st).

(** [callGenerateQuiz] after the [await]. *)
Definition settle (o : Gateway.Outcome (option QuizData)) (st : State) : State :=
  match pending st with
  | O => st
  | S n =>
      match o with
      | Gateway.Resolved (Some (mkQuizData (Some qs))) =>
          mkState qs false (userAnswers st) (showResults st) n (issued st) (alerts st)
      | Gateway.Resolved _ =>
          mkState (questions st) false (userAnswers st) (showResults st) n (issued st)
                  (alerts st ++ [lit "Failed to generate quiz: " ++ lit "Invalid quiz data format."])
      | Gateway.Rejected e =>
          mkState (questions st) false (userAnswers st) (showResults st) n (issued st)
                  (alerts st ++ [lit "Failed to generate quiz: " ++ Gateway.message e])
      end
  end.

Definition handleOptionSelect (questionIndex : nat) (option : jsstring)
    (st : State) : State :=
  mkState (questions st) (loading st)
          (<[questionIndex := option]> (userAnswers st))
          (showResults st) (pending st) (issued st) (alerts st).

Definition setShowResults (b : bool) (st : State) : State :=
  mkState (questions st) (loading st) (userAnswers st) b
          (pending st) (issued st) (alerts st).

(** The [forEach] of [calculateScore], from index [index] on. *)
Fixpoint scoreFrom (answers : gmap nat jsstring) (index : nat)
    (qs : list QuizQuestion) (score : nat) : nat :=
  match qs with
  | [] => score
  | q :: qs' =>
      scoreFrom answers (S index) qs'
        (if bool_decide (answers !! index = Some (correctAnswer q))
         then S score else score)
  end.

Definition calculateScore (st : State) : nat :=
  scoreFrom (userAnswers st) 0 (questions st) 0.

(** [disabled={loading}] on the start button. *)
Definition startDisabled (st : State) : bool := loading st.

(** [questions.length > 0 && !showResults]: the questions and the submit
    button are on screen. *)
Definition answering (st : State) : bool :=
  bool_decide (0 < length (questions st))%nat && negb (showResults st).

(** [disabled={Object.keys(userAnswers).length < questions.length}] *)
Definition submitDisabled (st : State) : bool :=
  bool_decide (size (userAnswers st) < length (questions st))%nat.

(** The submit button can be pressed. *)
Definition submitEnabled (st : State) : bool :=
  answering st && negb (submitDisabled st).

Inductive Event :=
| ClickStart
| ClickOption (questionIndex optionIndex : nat)
| ClickSubmit
| Settle (o : Gateway.Outcome (option QuizData)).

(** What an event does; a control that is disabled or not on screen does
    nothing. *)
Definition step (st : State) (ev : Event) : State :=
  match ev with
  | ClickStart => if startDisabled st then st else callGenerateQuiz st
  | ClickOption qIndex oIndex =>
      if answering st then
        match questions st !! qIndex ≫= (fun q => options q !! oIndex) with
        | Some option => handleOptionSelect qIndex option st
        | None => st
        end
      else st
  | ClickSubmit => if submitEnabled st then setShowResults true st else st
  | Settle o => settle o st
  end.

Definition run (evs : list Event) : State := fold_left step evs initial.

(** The number of question indices whose recorded answer is the question's
    [correctAnswer]. *)
Definition exactMatches (answers : gmap nat jsstring) (qs : list QuizQuestion) : nat :=
  length (filter (fun i => answers !! i = correctAnswer <$> qs !! i)
                 (seq 0 (length qs))).

(** The four states of the store. *)
Inductive Phase := Empty | Loading | InProgress | Submitted.

(** The start action is carried out: the store is reset and a quiz is
    requested. *)
Definition startAllowed (st : State) : Prop :=
  step st ClickStart = callGenerateQuiz st.

Definition phase (st : State) : Phase :=
  if loading st then Loading
  else if showResults st then Submitted
  else if bool_decide (questions st = []) then Empty
  else InProgress.

(** What holds in every state the store reaches: a request is pending
    exactly while loading, loading leaves nothing of the previous session,
    and the recorded answers belong to questions on screen. *)
Record invariant (st : State) : Prop := {
  quiz_pending : pending st = if loading st then 1%nat else 0%nat;
  quiz_loading_clean :
    loading st = true ->
    questions st = [] /\ userAnswers st = ∅ /\ showResults st = false;
  quiz_answers_in_range :
    forall k, is_Some (userAnswers st !! k) -> (k < length (questions st))%nat
}.

End Quiz.

(** ** The App component (App.tsx): view and search term *)

Module App.

(** The values [view] takes: ['home'], ['summary'], ['qna'], ['quiz']. *)
Inductive View := home | summary | qna | quiz.

Global Instance View_eq_dec : EqDecision View.
Proof. solve_decision. Defined.

Record State := mkState { view : View; searchTerm : jsstring }.

Definition initial : State := mkState home [].

Definition setView (v : View) (st : State) : State := mkState v (searchTerm st).
Definition setSearchTerm (t : jsstring) (st : State) : State := mkState (view st) t.

(** The [onChange] handler of the search box; [view] is the value of the
    render the handler was created in. *)
Definition onSearchChange (value : jsstring) (st : State) : State :=
  let st1 := setSearchTerm value st in
  if bool_decide (view st ≠ home) then setView home st1 else st1.

Inductive Event :=
| EditSearch (value : jsstring)
| Navigate (v : View).

(** Both updates of a handler are applied in one render. *)
Definition step (st : State) (ev : Event) : State :=
  match ev with
  | EditSearch value => onSearchChange value st
  | Navigate v => setView v st
  end.

(** What [renderContent] puts on screen. *)
Inductive Screen :=
| FullReport (content searchTerm : jsstring)
| SummariesScreen (sections : list DocSection)
| QuizScreen (reportText : jsstring)
| QnAScreen (reportText : jsstring).

Definition renderContent (reportContent : jsstring) (st : State) : Screen :=
  match view st with
  | home => FullReport reportContent (searchTerm st)
  | summary => SummariesScreen (parseSections reportContent)
  | quiz => QuizScreen reportContent
  | qna => QnAScreen reportContent
  end.

End App.

(** ** The document *)

(** The report, [reportContent] of App.tsx, code unit by code unit: the
    double quotes, the two typographic punctuation marks and the line feeds
    are spliced in between the ASCII runs. *)
Definition reportContent : jsstring :=
  [LF]
  ++ lit "# Andre Smith's Trillium Model: A Comprehensive Exploration" ++ [LF]
  ++ [LF]
  ++ lit "## Abstract" ++ [LF]
  ++ [LF]
  ++ lit "This report provides a comprehensive exploration of The Trillium Model, a theoretical hypothesis proposed by Andre Smith, a theoretical physicist. The model presents a sophisticated framework for understanding how consciousness and reality are inextricably linked. It defines reality not as a static, external environment but as a dynamic, self-referential process that is actively co-created through the interplay of an individual" ++ [8217%N] ++ lit "s mental, physical, emotional, and visual faculties. By establishing a clear, multi-layered scale of existence, the model offers profound insights into personal agency, the nature of time, and the psychological mechanisms by which a person's inner state manifests their external reality." ++ [LF]
  ++ [LF]
  ++ lit "## I. The Core Framework: A Scale of Existence" ++ [LF]
  ++ [LF]
  ++ lit "Andre Smith conceptualizes his model as an elegant numerical scale" ++ [8212%N] ++ lit "with **-1** representing the past, **0** for the present, and **+1** for the future. This scale is not a measure of distance, but a hierarchy of influence and agency that underpins the constant process of creation." ++ [LF]
  ++ [LF]
  ++ lit "* **The Reflective Wave (-1): The Repository of Truth and Obstacles.** The Reflective Wave is more than a simple record of history; it is a repository of learned experiences and a living memory of every detail, including the obstacles encountered. As Andre Smith explains with his fan and backscratcher analogies, the past holds the precise knowledge of what went right and, more importantly, what went wrong. This truth, embedded in an individual's physical, emotional, and visual memory, is a resource that can be consciously accessed in the present to inform their choices and avoid future pitfalls. This is the **subconscious mind**, a vast reservoir of past data that constantly flows into the present." ++ [LF]
  ++ [LF]
  ++ lit "* **The Consciousness Filter (0): The Crucible of the Now.** The " ++ [DQUOTE] ++ lit "now," ++ [DQUOTE] ++ lit " represented by the **0**, is the critical core of the model and the sole point where creation and decision-making occur. It is the mental crucible where a person can mentally and emotionally " ++ [DQUOTE] ++ lit "try out" ++ [DQUOTE] ++ lit " future possibilities before they are physically manifested. This is a profound psychological concept" ++ [8212%N] ++ lit "the mind is a simulator. As illustrated by the example of rearranging a living room, a person uses their mental, visual, physical, and emotional faculties to navigate the Probabilistic Landscape, running through scenarios and potential problems in their mind, all from the vantage point of the present. This is the **conscious mind**, the active agent in the process of creation." ++ [LF]
  ++ [LF]
  ++ lit "* **The Probabilistic Landscape (+1): The Unfolding of Potential.** The **+1** is the realm of pure potentiality, a canvas of endless possibilities. Andre Smith's insight is that this landscape is not a static list of futures, but a space a person actively engages with from the **0**. One " ++ [DQUOTE] ++ lit "looks forward, ahead of that zero," ++ [DQUOTE] ++ lit " using imagination and foresight to pre-experience outcomes. The truth of the future is not what is fated, but what is chosen and manifested from the current moment. This is the realm where a person's inner work becomes outer reality." ++ [LF]
  ++ [LF]
  ++ lit "## II. The Encompassing Elements: The Unified Field of Consciousness" ++ [LF]
  ++ [LF]
  ++ lit "The dynamic interplay of the Trillium Model's core components is housed within a larger, unified field of consciousness, defined by three key elements:" ++ [LF]
  ++ [LF]
  ++ lit "* **The Square: The Four Pillars of Embodied Reality.** The Square is a conceptual element that surrounds the entire Trillium Model, and its four corners represent the fundamental, integrated dimensions of human experience: **Visual, Physical, Emotional, and Mental**. This is not about external societal pressures or beliefs. It is a profound acknowledgment that a person" ++ [8217%N] ++ lit "s inner world is constructed from these four intrinsic components. The Square acts as a unified container for a person" ++ [8217%N] ++ lit "s entire embodied reality, asserting that to truly understand consciousness, we must see it not as a disembodied mental event, but as an inseparable synthesis of how we see, feel, think, and exist physically." ++ [LF]
  ++ [LF]
  ++ lit "* **The Sphere & The Circle: The Point and The Process.** At the center of this unified field is **The Sphere**, the singular, non-divisible point of the " ++ [DQUOTE] ++ lit "eternal now." ++ [DQUOTE] ++ lit " This is the precise intersection where the past and future converge, all processed through the Consciousness Filter. The Sphere is the point of ultimate truth and agency, as it is the only moment where real change can be initiated. The entire process is then unified by **The Circle**, a continuous, integrated feedback loop. This circular dynamic shows how past, present, and future are not separate, but are in constant, fluid interaction, underscoring the holistic truth that our mental, physical, emotional, and visual aspects are seamlessly unified within one overarching process." ++ [LF]
  ++ [LF]
  ++ lit "## III. The Psychological and Philosophical Interconnection" ++ [LF]
  ++ [LF]
  ++ lit "The most profound philosophical truth within Andre Smith's theoretical hypothesis is that individuals are the architects of their own reality." ++ [LF]
  ++ [LF]
  ++ lit "* **The Paradox of Creation.** Andre Smith highlights a powerful psychological paradox: the very act of fearing a negative outcome and dwelling on what a person *doesn't* want to happen is a creative act. By giving their mental, emotional, and visual energy to the " ++ [DQUOTE] ++ lit "opposite" ++ [DQUOTE] ++ lit " of what they desire, they are effectively and often unconsciously creating that very reality. This concept directly challenges the notion of " ++ [DQUOTE] ++ lit "free will" ++ [DQUOTE] ++ lit " as a random, unguided force. Instead, it suggests that expectations and thoughts, whether conscious or unconscious, are the primary determinants of one's future. As he explains, a person who thinks about a past failure and says, " ++ [DQUOTE] ++ lit "that ain't going to work, so I'm not going to do it," ++ [DQUOTE] ++ lit " is actively creating the failure they fear." ++ [LF]
  ++ [LF]
  ++ lit "* **Personal Agency and Conscious Overriding.** The key to personal agency, as he articulates, is the conscious use of the Consciousness Filter (**0**). The solution is to deliberately shift focus from what didn't work previously to what *must* work this time. This isn't just positive thinking; it's a deliberate psychological act of overriding a past, negative memory with a new, intentional probability. By mentally rehearsing positive outcomes and acknowledging the obstacles from the Reflective Wave, a person can make a conscious decision to choose a new path. This process is not about denying the past but learning from it to inform a more intentional present and a more desirable future." ++ [LF]
  ++ [LF]
  ++ lit "## Conclusion" ++ [LF]
  ++ [LF]
  ++ lit "In this way, Andre Smith" ++ [8217%N] ++ lit "s theoretical hypothesis is not a theory to be passively understood, but a guide for active participation in the creation of reality. It reveals the constant, dynamic, and intricate dance between a person's past experiences, their present thoughts, and their future possibilities, all grounded in the truth of their embodied experience. By consciously engaging with the various components of The Trillium Model, an individual can gain profound self-awareness and leverage their innate creative power to become the architect of their own life." ++ [LF].

(** ** Example documents *)

(** Three headings; the middle section has a body, the last one has none.
    [abstractText] is what follows the Abstract heading. *)
Definition threeHeadings (firstHeading abstractText : jsstring) : jsstring :=
  lit "## Abstract" ++ [LF] ++ abstractText ++ [LF] ++
  firstHeading ++ [LF] ++ lit "foo" ++ [LF] ++ lit "## II. Y".

(** The same with the heading the Abstract extraction looks for. *)
Definition docEmptyLastSection : jsstring :=
  threeHeadings (lit "## I. The Core Framework") (lit "abs").

(** The scenario document: headings Abstract, I. X and II. Y. *)
Definition docScenario : jsstring := threeHeadings (lit "## I. X") (lit "abs").

(** The sectionizer property in the specification's words, for the list of
    heading lines it counts: with a non-empty abstract, one section per
    heading after the Abstract section, titled in order by the headings. *)
Definition sectionPerHeading (headings : list jsstring) (text : jsstring) : Prop :=
  nonempty (content (abstractSection text)) = true ->
  length (parseSections text) = (length headings + 1)%nat
  /\ map title (parseSections text) = lit "Abstract" :: map headingTitle headings.

(** A quiz of two questions, and a session that answers both. *)
Definition sampleQuiz : list QuizQuestion :=
  [mkQuizQuestion (lit "Q1") [lit "A"; lit "B"; lit "C"; lit "D"] (lit "A");
   mkQuizQuestion (lit "Q2") [lit "A"; lit "B"; lit "C"; lit "D"] (lit "C")].

Definition sampleQuizSession : list Quiz.Event :=
  [Quiz.ClickStart;
   Quiz.Settle (Gateway.Resolved (Some (Quiz.mkQuizData (Some sampleQuiz))));
   Quiz.ClickOption 0 0;
   Quiz.ClickOption 1 1].

(** Two sections to page through. *)
Definition twoSections : list DocSection :=
  [mkSection (lit "Abstract") (lit "abs"); mkSection (lit "I. X") (lit "foo")].

(** The first summary fails at the remote; the user pages to the second
    section, waits for its summary, and pages back. *)
Definition failThenReturn : list Summaries.Event :=
  [Summaries.Settle 0 (Gateway.Resolved (Some Gateway.summaryFallback));
   Summaries.ClickNext;
   Summaries.Settle 0 (Gateway.Resolved (Some (lit "summary of X")));
   Summaries.ClickPrev].

(** The first summary comes back as the empty string. *)
Definition emptySummary : list Summaries.Event :=
  [Summaries.Settle 0 (Gateway.Resolved (Some []))].

(** ** The Q&A component (App.tsx)

    The three [useState] cells of [QnA], with the [answerQuestion] promises
    that have not settled yet (each by the question it was called with) and
    the log of the calls made. *)

Module QnA.

Record State := mkState {
  question : jsstring;
  answer : option jsstring;
  loading : bool;
  pending : list jsstring;
  issued : list (jsstring * jsstring)
}.

Definition initial : State := mkState [] (Some []) false [] [].

Section Component.

Variable reportText : jsstring.

(** [!question.trim()] *)
Definition blank (st : State) : bool := negb (nonempty (trim (question st))).

(** [handleAsk] up to its [await]: nothing for a blank question; otherwise
    the flag is set, the answer is cleared and the gateway is called. *)
Definition handleAsk (st : State) : State :=
  if blank st then st
  else mkState (question st) (Some []) true
               (pending st ++ [question st])
               (issued st ++ [(reportText, question st)]).

(** What [handleAsk] stores after the [await]: a string or, when
    [answerQuestion] resolved to it, [undefined] ([None]). *)
Definition storedAnswer (o : Gateway.Outcome (option jsstring)) : option jsstring :=
  match o with
  | Gateway.Resolved answerText => answerText
  | Gateway.Rejected _ => Some (lit "Failed to get an answer. Please try again.")
  end.

(** [handleAsk] after the [await], for the [i]-th pending call. *)
Definition settle (i : nat) (o : Gateway.Outcome (option jsstring)) (st : State) : State :=
  match pending st !! i with
  | None => st
  | Some _ =>
      mkState (question st) (storedAnswer o) false
              (delete i (pending st)) (issued st)
  end.

(** [disabled={loading}] on the text area. *)
Definition editDisabled (st : State) : bool := loading st.

(** [disabled={loading || !question.trim()}] on the button. *)
Definition askDisabled (st : State) : bool := loading st || blank st.

Inductive Event :=
| EditQuestion (value : jsstring)
| ClickAsk
| Settle (i : nat) (o : Gateway.Outcome (option jsstring)).

Definition step (st : State) (ev : Event) : State :=
  match ev with
  | EditQuestion value =>
      if editDisabled st then st
      else mkState value (answer st) (loading st) (pending st) (issued st)
  | ClickAsk => if askDisabled st then st else handleAsk st
  | Settle i o => settle i o st
  end.

Definition run (evs : list Event) : State := fold_left step evs initial.


(** What holds in every state the component reaches: while loading, the
    one pending call is the last one made, for the question in the box,
    which is not blank, and the previous answer is gone. *)
Record invariant (st : State) : Prop := {
  qna_pending : pending st = if loading st then [question st] else [];
  qna_loading_clean : loading st = true -> answer st = Some [];
  qna_asked_nonblank : loading st = true -> nonempty (trim (question st)) = true;
  qna_last_call :
    loading st = true -> last (issued st) = Some (reportText, question st)
}.

End Component.

End QnA.

(** ** The search highlight of [FullReport] (App.tsx) *)

Module FullReport.

(** The characters of the class [[.*+?^${}()|[\]\\]]. *)
Definition isSyntaxCharacter (c : N) : bool :=
  bool_decide (c ∈ lit ".*+?^${}()|[]" ++ [92%N]).

(** [searchTerm.replace(/[.*+?^${}()|[\]\\]/g, '\\$&')]: every character of
    the class is replaced by a backslash and itself. *)
Fixpoint escapeSearchTerm (searchTerm : jsstring) : jsstring :=
  match searchTerm with
  | [] => []
  | c :: s => if isSyntaxCharacter c
              then 92%N :: c :: escapeSearchTerm s
              else c :: escapeSearchTerm s
  end.

(** The source of [new RegExp(`(${escapedSearchTerm})`, 'gi')]. *)
Definition patternSource (searchTerm : jsstring) : jsstring :=
  lit "(" ++ escapeSearchTerm searchTerm ++ lit ")".

(** The fourteen syntax characters of the pattern grammar of ECMAScript. *)
Definition isPatternSyntax (c : N) : bool :=
  bool_decide (c ∈ lit "^$.*+?()[]{}|" ++ [92%N]).

(** A pattern text read as a sequence of literal atoms, the way the pattern
    grammar reads it: a character that is not a syntax character stands for
    itself, a backslash followed by a syntax character stands for that
    character; anything else is not a sequence of literals. *)
Fixpoint literalAtoms (pattern : jsstring) : option jsstring :=
  match pattern with
  | [] => Some []
  | c :: rest =>
      if bool_decide (c = 92%N) then
        match rest with
        | d :: rest' =>
            if isPatternSyntax d then cons d <$> literalAtoms rest' else None
        | [] => None
        end
      else if isPatternSyntax c then None
      else cons c <$> literalAtoms rest
  end.

End FullReport.

(** ** Reading the stores and the traces *)

(** The requests sent to the remote service, in order. *)
Definition requestsOf (tr : list Gateway.Effect) : list Gateway.Request :=
  omap (fun e => match e with Gateway.GenerateContent r => Some r | _ => None end) tr.

(** The texts handed to [JSON.parse], in order. *)
Definition parsesOf (tr : list Gateway.Effect) : list jsstring :=
  omap (fun e => match e with Gateway.JsonParse t => Some t | _ => None end) tr.

(** The [console.error] calls, in order. *)
Definition consoleErrorsOf (tr : list Gateway.Effect) : list (list jsstring) :=
  omap (fun e => match e with Gateway.ConsoleError a => Some a | _ => None end) tr.

(** The events of a Summaries session all settle with a non-empty text. *)
Definition settlesNonEmpty (ev : Summaries.Event) : Prop :=
  match ev with
  | Summaries.Settle _ o => truthy (Summaries.storedText o) = true
  | _ => True
  end.

(** The moves between the states of the quiz store. *)
Definition quizTransition (p p' : Quiz.Phase) : bool :=
  match p, p' with
  | Quiz.Empty, (Quiz.Empty | Quiz.Loading) => true
  | Quiz.Loading, (Quiz.Loading | Quiz.Empty | Quiz.InProgress) => true
  | Quiz.InProgress, (Quiz.InProgress | Quiz.Submitted | Quiz.Loading) => true
  | Quiz.Submitted, (Quiz.Submitted | Quiz.Loading) => true
  | _, _ => false
  end.

(** The questions whose [correctAnswer] is one of their own options. *)
Definition answerable (qs : list QuizQuestion) : list QuizQuestion :=
  filter (fun q => correctAnswer q ∈ options q) qs.

(** What the Summaries view keeps besides [Summaries.invariant]: the index
    stays within the sections, the only call that can be pending is the one
    for the section on screen, and every call made is for a section of the
    list. *)
Record summariesView (sections : list DocSection) (st : Summaries.State) : Prop := {
  index_in_range :
    (Summaries.currentSectionIndex st <= length sections - 1)%nat;
  pending_on_screen :
    Summaries.pending st = []
    \/ exists cur, Summaries.currentSection sections st = Some cur
                   /\ Summaries.pending st = [title cur];
  issued_from_sections :
    forall t c, (t, c) ∈ Summaries.issued st -> mkSection t c ∈ sections
}.

(** Every title has been requested at most once, and a requested title is
    pending or has a non-empty summary. *)
Definition requestedOnce (st : Summaries.State) : Prop :=
  forall t, (Summaries.callsFor t st <= 1)%nat
            /\ (Summaries.callsFor t st = 1%nat ->
                t ∈ Summaries.pending st
                \/ truthyString (Summaries.summaries st !! t) = true).

(** Every recorded answer is an option of the question it answers. *)
Definition answersAreOptions (st : Quiz.State) : Prop :=
  forall k a, Quiz.userAnswers st !! k = Some a ->
              exists q, Quiz.questions st !! k = Some q /\ a ∈ options q.

(** No line of the text is a heading line. *)
Definition headingFree (text : jsstring) : Prop :=
  Forall (fun l => isHeadingLine l = false) (split_lines text).

(** No call made is for a title that names an inherited member. *)
Definition issuedPlain (st : Summaries.State) : Prop :=
  forall t c, (t, c) ∈ Summaries.issued st -> inheritedMember t = false.

(** A list with one section, titled by the name of an inherited member. *)
Definition constructorSection : list DocSection :=
  [mkSection (lit "Abstract") (lit "abs"); mkSection (lit "constructor") (lit "c")].

(* ===================================================================== *)
(** * Properties *)

(** ** Sectionizer *)

Lemma fold_scanLine_blocks lines : forall acc cur,
  (let '(sections, currentSection) := fold_left scanLine lines (acc, cur) in
   if nonempty (trim (content currentSection))
   then sections ++ [trimmed currentSection]
   else sections)
  = acc ++ map sectionOf
             (emitted (mkBlock (title cur) (content cur ++ bodyText lines)
                       :: headingBlocks lines)).
Proof.
  induction lines as [|l ls IH]; intros acc cur; simpl.
  - rewrite app_nil_r. unfold isBlank; simpl.
    destruct (nonempty (trim (content cur))); simpl; [done|].
    by rewrite app_nil_r.
  - destruct (isHeadingLine l) eqn:Hl; simpl.
    + rewrite IH. simpl. rewrite app_nil_r.
      unfold isBlank, titledAbstract; simpl.
      destruct (nonempty (trim (content cur))); simpl; [|done].
      destruct (jsstring_eqb (title cur) (lit "Abstract")); simpl; [done|].
      rewrite <- app_assoc. done.
    + rewrite IH. simpl. rewrite <- !app_assoc. done.
Qed.

Lemma parseSections_blocks text :
  parseSections text
  = abstractSection text
    :: map sectionOf (emitted (allBlocks (split_lines text))).
Proof.
  unfold parseSections.
  pose proof (fold_scanLine_blocks (split_lines text) [abstractSection text]
                (mkSection (lit "Abstract") [])) as H.
  simpl in H. exact H.
Qed.

Lemma emitted_sublist bs : emitted bs `sublist_of` bs.
Proof.
  induction bs as [|b [|b' bs'] IH].
  - constructor.
  - simpl. destruct (isBlank b); [by apply sublist_cons | done].
  - change (emitted (b :: b' :: bs')) with
      (if negb (isBlank b) && negb (titledAbstract b)
       then b :: emitted (b' :: bs') else emitted (b' :: bs')).
    destruct (negb (isBlank b) && negb (titledAbstract b)).
    + by apply sublist_skip.
    + by apply sublist_cons.
Qed.

Lemma emitted_nonblank bs : Forall (fun b => isBlank b = false) (emitted bs).
Proof.
  induction bs as [|b [|b' bs'] IH].
  - constructor.
  - simpl. destruct (isBlank b) eqn:Hb; repeat constructor; done.
  - change (emitted (b :: b' :: bs')) with
      (if negb (isBlank b) && negb (titledAbstract b)
       then b :: emitted (b' :: bs') else emitted (b' :: bs')).
    destruct (isBlank b) eqn:Hb; simpl; [done|].
    destruct (titledAbstract b); simpl; [done|]. by constructor.
Qed.

Lemma emitted_length bs : (length (emitted bs) <= length bs)%nat.
Proof. apply sublist_length, emitted_sublist. Qed.

Lemma emitted_all_iff bs :
  length (emitted bs) = length bs <-> allKept bs = true.
Proof.
  induction bs as [|b [|b' bs'] IH].
  - done.
  - simpl. destruct (isBlank b); simpl; split; done.
  - change (emitted (b :: b' :: bs')) with
      (if negb (isBlank b) && negb (titledAbstract b)
       then b :: emitted (b' :: bs') else emitted (b' :: bs')).
    change (allKept (b :: b' :: bs')) with
      (negb (isBlank b) && negb (titledAbstract b) && allKept (b' :: bs')).
    pose proof (emitted_length (b' :: bs')) as Hle.
    destruct (negb (isBlank b) && negb (titledAbstract b)); simpl in *.
    + rewrite <- IH. split; lia.
    + split; [lia | done].
Qed.

Lemma emitted_all bs : allKept bs = true -> emitted bs = bs.
Proof.
  induction bs as [|b [|b' bs'] IH]; [done | |].
  - simpl. by destruct (isBlank b).
  - change (allKept (b :: b' :: bs')) with
      (negb (isBlank b) && negb (titledAbstract b) && allKept (b' :: bs')).
    change (emitted (b :: b' :: bs')) with
      (if negb (isBlank b) && negb (titledAbstract b)
       then b :: emitted (b' :: bs') else emitted (b' :: bs')).
    intros [-> Hk]%andb_prop. by rewrite IH.
Qed.

(** The placeholder block in front of the first heading is never emitted
    once a heading closes it. *)
Lemma emitted_preamble body hb :
  hb <> [] -> emitted (mkBlock (lit "Abstract") body :: hb) = emitted hb.
Proof.
  destruct hb as [|b' bs']; [done|]. intros _.
  change (emitted (mkBlock (lit "Abstract") body :: b' :: bs')) with
    (if negb (isBlank (mkBlock (lit "Abstract") body))
        && negb (titledAbstract (mkBlock (lit "Abstract") body))
     then mkBlock (lit "Abstract") body :: emitted (b' :: bs')
     else emitted (b' :: bs')).
  replace (titledAbstract (mkBlock (lit "Abstract") body)) with true
    by (vm_compute; reflexivity).
  by rewrite andb_false_r.
Qed.

Lemma headingBlocks_titles lines :
  map blockTitle (headingBlocks lines)
  = map headingTitle (filter (fun l => isHeadingLine l = true) lines).
Proof.
  induction lines as [|l ls IH]; [done|].
  cbn [headingBlocks]. destruct (isHeadingLine l) eqn:Hl.
  - rewrite filter_cons_True by done. cbn [map blockTitle]. by rewrite IH.
  - rewrite filter_cons_False by (by rewrite Hl). done.
Qed.

Lemma headingBlocks_length text :
  length (headingBlocks (split_lines text)) = length (headingLines text).
Proof.
  unfold headingLines.
  rewrite <- (length_map blockTitle), headingBlocks_titles.
  by rewrite length_map.
Qed.

Lemma headingBlocks_nonempty text :
  headingLines text <> [] -> headingBlocks (split_lines text) <> [].
Proof.
  intros Hne E. apply (f_equal length) in E.
  rewrite headingBlocks_length in E. by destruct (headingLines text).
Qed.

(** C1 (as amended).  For every document with at least one heading line (a
    line whose trimmed text starts with [##]), [parseSections] returns the
    Abstract section followed, in document order, by the sections of the
    heading blocks that are kept: a block is kept when its trimmed content is
    non-empty and, unless it is the last one, its title is not Abstract; each
    title is the trimmed heading line without a leading [## ].  With N
    heading lines there are at most N+1 sections, and N+1 exactly when
    every heading block is kept. *)
Theorem parseSections_kept_headings (text : jsstring) :
  headingLines text <> [] ->
  let hb := headingBlocks (split_lines text) in
  parseSections text = abstractSection text :: map sectionOf (emitted hb)
  /\ title (abstractSection text) = lit "Abstract"
  /\ emitted hb `sublist_of` hb
  /\ Forall (fun b => nonempty (trim (blockBody b)) = true) (emitted hb)
  /\ map blockTitle hb = map headingTitle (headingLines text)
  /\ (length (parseSections text) <= length (headingLines text) + 1)%nat
  /\ (length (parseSections text) = (length (headingLines text) + 1)%nat
      <-> allKept hb = true).
Proof.
  intros Hne hb.
  assert (Hlen : length hb = length (headingLines text))
    by apply headingBlocks_length.
  assert (Hhb : hb <> []) by (by apply headingBlocks_nonempty).
  assert (Heq : parseSections text
                = abstractSection text :: map sectionOf (emitted hb)).
  { rewrite parseSections_blocks. unfold allBlocks.
    by rewrite emitted_preamble. }
  pose proof (emitted_length hb) as Hle.
  split; [exact Heq|]. split; [done|].
  split; [apply emitted_sublist|].
  split.
  { eapply Forall_impl; [apply emitted_nonblank|].
    intros b Hb. unfold isBlank in Hb. by apply negb_false_iff in Hb. }
  split; [apply headingBlocks_titles|].
  rewrite Heq. cbn [length]. rewrite length_map, <- Hlen.
  split; [lia|].
  rewrite <- emitted_all_iff. lia.
Qed.

(** The theorem at the document whose last heading has no body. *)
Lemma parseSections_kept_headings_witness :
  headingLines docEmptyLastSection <> []
  /\ map title (parseSections docEmptyLastSection)
     = [lit "Abstract"; lit "I. The Core Framework"].
Proof.
  assert (H : headingLines docEmptyLastSection <> []) by (vm_compute; discriminate).
  split; [exact H|].
  destruct (parseSections_kept_headings docEmptyLastSection H) as [-> _].
  vm_compute. reflexivity.
Defined.

(** When every heading block is kept, the titles after the first are those
    of all the headings. *)
Lemma parseSections_all_headings (text : jsstring) :
  headingLines text <> [] ->
  allKept (headingBlocks (split_lines text)) = true ->
  map title (parseSections text)
  = lit "Abstract" :: map headingTitle (headingLines text).
Proof.
  intros Hne Hk.
  rewrite parseSections_blocks. unfold allBlocks.
  rewrite emitted_preamble by (by apply headingBlocks_nonempty).
  rewrite (emitted_all _ Hk). cbn [map]. f_equal.
  unfold headingLines. rewrite <- headingBlocks_titles, map_map. done.
Qed.

(** C1 (counterexample to the claim as stated).  A document with a
    non-empty abstract and three heading lines, the last without a body:
    two sections come back, not one per heading, whether or not the
    Abstract heading is counted. *)
Lemma parseSections_drops_empty_heading :
  nonempty (content (abstractSection docEmptyLastSection)) = true
  /\ length (headingLines docEmptyLastSection) = 3%nat
  /\ length (parseSections docEmptyLastSection) = 2%nat
  /\ ~ sectionPerHeading (headingLines docEmptyLastSection) docEmptyLastSection
  /\ ~ sectionPerHeading
         (filter (fun l => headingTitle l <> lit "Abstract")
                 (headingLines docEmptyLastSection))
         docEmptyLastSection.
Proof.
  assert (Ha : nonempty (content (abstractSection docEmptyLastSection)) = true)
    by (vm_compute; reflexivity).
  split; [exact Ha|].
  split; [vm_compute; reflexivity|].
  split; [vm_compute; reflexivity|].
  split; intros H; destruct (H Ha) as [Hlen _]; vm_compute in Hlen; discriminate.
Qed.

(** *** The scenario with three headings *)

Lemma startsWith_app p s : startsWith (p ++ s) p = true.
Proof.
  induction p as [|a p IH]; simpl; [by destruct s|].
  by rewrite bool_decide_eq_true_2.
Qed.

Lemma indexOf_prefix p s : indexOf (p ++ s) p = 0.
Proof.
  unfold indexOf.
  assert (Hunfold : forall i t, startsWith t p = true -> indexFrom i t p = i).
  { intros i [|c t] Ht; cbn [indexFrom]; by rewrite Ht. }
  apply Hunfold, startsWith_app.
Qed.

Lemma substring_no_end s : substring s 0 (-1) = [].
Proof.
  unfold substring.
  replace (Z.min (Z.max 0 0) (Z.of_nat (length s))) with 0 by lia.
  replace (Z.min (Z.max (-1) 0) (Z.of_nat (length s))) with 0 by lia.
  done.
Qed.

Lemma split_lines_nonempty s : split_lines s <> [].
Proof.
  destruct s as [|c s]; simpl; [done|].
  case_bool_decide; [done|]. by destruct (split_lines s).
Qed.

(** Splitting distributes over a line feed. *)
Lemma split_lines_app x y :
  split_lines (x ++ LF :: y) = split_lines x ++ split_lines y.
Proof.
  induction x as [|c x IH]; cbn [app split_lines].
  - by rewrite bool_decide_eq_true_2.
  - case_bool_decide; [by rewrite IH|].
    rewrite IH. pose proof (split_lines_nonempty x).
    by destruct (split_lines x).
Qed.

Lemma headingBlocks_skip ls rest :
  Forall (fun l => isHeadingLine l = false) ls ->
  headingBlocks (ls ++ rest) = headingBlocks rest.
Proof.
  induction 1 as [|l ls Hl _ IH]; [done|].
  simpl. by rewrite Hl.
Qed.

(** C2 (as amended).  For the document with the headings Abstract, I. X and
    II. Y, where any text without heading lines follows the Abstract
    heading, X has the content foo and Y has none, and the marker
    [## I. The Core Framework] does not occur: exactly two sections come
    back, the Abstract one with empty content and I. X with content foo. *)
Theorem parseSections_scenario (abstractText : jsstring) :
  Forall (fun l => isHeadingLine l = false) (split_lines abstractText) ->
  indexOf (threeHeadings (lit "## I. X") abstractText)
          (lit "## I. The Core Framework") = -1 ->
  parseSections (threeHeadings (lit "## I. X") abstractText)
  = [mkSection (lit "Abstract") []; mkSection (lit "I. X") (lit "foo")].
Proof.
  intros Hbody Hmarker.
  rewrite parseSections_blocks. f_equal.
  - unfold abstractSection. rewrite Hmarker.
    replace (indexOf _ (lit "## Abstract")) with 0
      by (symmetry; apply indexOf_prefix).
    rewrite substring_no_end.
    vm_compute. reflexivity.
  - unfold threeHeadings.
    cbn [app].
    rewrite (split_lines_app (lit "## Abstract")), (split_lines_app abstractText),
      (split_lines_app (lit "## I. X")), (split_lines_app (lit "foo")).
    replace (split_lines (lit "## Abstract")) with [lit "## Abstract"]
      by (vm_compute; reflexivity).
    unfold allBlocks. cbn [app bodyText headingBlocks].
    replace (isHeadingLine (lit "## Abstract")) with true
      by (vm_compute; reflexivity).
    cbv iota.
    rewrite emitted_preamble by done.
    rewrite (headingBlocks_skip _ _ Hbody).
    set (body := bodyText _).
    replace (split_lines (lit "## I. X") ++ split_lines (lit "foo")
             ++ split_lines (lit "## II. Y"))
      with [lit "## I. X"; lit "foo"; lit "## II. Y"]
      by (vm_compute; reflexivity).
    cbn [headingBlocks bodyText].
    replace (isHeadingLine (lit "## I. X")) with true by (vm_compute; reflexivity).
    replace (isHeadingLine (lit "foo")) with false by (vm_compute; reflexivity).
    replace (isHeadingLine (lit "## II. Y")) with true by (vm_compute; reflexivity).
    cbn [emitted].
    replace (titledAbstract (mkBlock (headingTitle (lit "## Abstract")) body))
      with true by (vm_compute; reflexivity).
    rewrite andb_false_r.
    vm_compute. reflexivity.
Qed.

(** The theorem at the scenario document. *)
Lemma parseSections_scenario_witness :
  parseSections docScenario
  = [mkSection (lit "Abstract") []; mkSection (lit "I. X") (lit "foo")].
Proof.
  apply (parseSections_scenario (lit "abs")).
  - vm_compute. repeat constructor.
  - vm_compute. reflexivity.
Defined.

(** C2 (counterexample to the claim as stated).  The text under the
    Abstract heading of the scenario document is not the content of the
    Abstract section. *)
Lemma parseSections_scenario_abstract_lost :
  parseSections docScenario
  <> [mkSection (lit "Abstract") (lit "abs"); mkSection (lit "I. X") (lit "foo")].
Proof. vm_compute. discriminate. Qed.

(** ** Gateway *)

Section GatewayFacts.

Import Gateway.

Variable API_KEY : option jsstring.
Variable GoogleGenAI : jsstring -> Client.
Variable JSON_parse : jsstring -> option JSON.value.

Local Abbreviation ai := (Gateway.ai API_KEY GoogleGenAI).


(** How [generateQuiz] settles, case by case. *)
Lemma generateQuiz_settles (reportText : jsstring) :
  settles (generateQuiz API_KEY GoogleGenAI JSON_parse reportText)
  = match ai with
    | None => Rejected (mkError apiKeyMessage)
    | Some client =>
        match client (quizRequest reportText) with
        | Failure _ | NoText => Rejected (mkError quizFailure)
        | Text text =>
            if notJsonLike (trim text) then Rejected (mkError quizFailure)
            else match JSON_parse (trim text) with
                 | Some v => Resolved v
                 | None => Rejected (mkError quizFailure)
                 end
        end
    end.
Proof.
  unfold generateQuiz, checkApiKey, generateContent, quizRequest, notJsonLike.
  destruct ai as [client|]; simpl; [|done].
  destruct (client _) as [text| |e]; simpl; [|done|done].
  destruct (negb _ && negb _); simpl; [done|].
  by destruct (JSON_parse _).
Qed.

(** The effects of [generateQuiz] when the response does not look like
    JSON: the request, and two console messages. *)
Lemma generateQuiz_trace_not_json (reportText : jsstring) client text :
  ai = Some client ->
  client (quizRequest reportText) = Text text ->
  notJsonLike (trim text) = true ->
  trace (generateQuiz API_KEY GoogleGenAI JSON_parse reportText)
  = [GenerateContent (quizRequest reportText);
     ConsoleError [lit "Received non-JSON response for quiz generation:"; trim text];
     ConsoleError [lit "Error generating quiz:"; formatFailure]].
Proof.
  intros Hai Hc Hn.
  unfold generateQuiz, checkApiKey, generateContent.
  rewrite Hai. simpl. fold (quizRequest reportText). rewrite Hc. simpl.
  unfold notJsonLike in Hn. rewrite Hn. done.
Qed.

(** C4 (as amended).  [generateQuiz] raises in exactly five cases: the
    credential is missing; the remote call fails; the response has no text,
    so that trimming it throws; the trimmed response text starts with
    neither brace nor bracket, and then no parse is attempted; or the text
    does start so but [JSON.parse] throws.  The first raises the
    configuration message, the others the generic quiz failure; no
    placeholder is returned. *)
Theorem generateQuiz_raises_iff (reportText : jsstring) :
  let r := generateQuiz API_KEY GoogleGenAI JSON_parse reportText in
  (quizRaises API_KEY GoogleGenAI JSON_parse reportText
   <-> credentialMissing API_KEY GoogleGenAI
       \/ remoteFails API_KEY GoogleGenAI reportText
       \/ responseWithoutText API_KEY GoogleGenAI reportText
       \/ responseNotJsonLike API_KEY GoogleGenAI reportText
       \/ responseUnparsable API_KEY GoogleGenAI JSON_parse reportText)
  /\ (credentialMissing API_KEY GoogleGenAI ->
      settles r = Rejected (mkError apiKeyMessage))
  /\ (remoteFails API_KEY GoogleGenAI reportText
      \/ responseWithoutText API_KEY GoogleGenAI reportText
      \/ responseNotJsonLike API_KEY GoogleGenAI reportText
      \/ responseUnparsable API_KEY GoogleGenAI JSON_parse reportText ->
      settles r = Rejected (mkError quizFailure))
  /\ (responseNotJsonLike API_KEY GoogleGenAI reportText ->
      forall text, JsonParse text ∉ trace r).
Proof.
  intros r. subst r.
  unfold quizRaises, credentialMissing, remoteFails, responseWithoutText,
    responseNotJsonLike, responseUnparsable.
  rewrite generateQuiz_settles.
  repeat split.
  - destruct ai as [client|] eqn:Hai; [|by left].
    destruct (client (quizRequest reportText)) as [text| |e] eqn:Hc.
    + destruct (notJsonLike (trim text)) eqn:Hn.
      * intros _. right; right; right; left. eauto 10.
      * destruct (JSON_parse (trim text)) eqn:Hp.
        -- intros [e He]. discriminate.
        -- intros _. right; right; right; right. eauto 10.
    + intros _. right; right; left. eauto.
    + intros _. right; left. eauto.
  - intros [Hnone | [(client & e & Hai & Hc) | [(client & Hai & Hc)
                   | [(client & text & Hai & Hc & Hn)
                   | (client & text & Hai & Hc & Hn & Hp)]]]].
    + rewrite Hnone. eauto.
    + rewrite Hai, Hc. eauto.
    + rewrite Hai, Hc. eauto.
    + rewrite Hai, Hc, Hn. eauto.
    + rewrite Hai, Hc, Hn, Hp. eauto.
  - by intros ->.
  - intros [(client & e & Hai & Hc) | [(client & Hai & Hc)
            | [(client & text & Hai & Hc & Hn)
            | (client & text & Hai & Hc & Hn & Hp)]]].
    + by rewrite Hai, Hc.
    + by rewrite Hai, Hc.
    + by rewrite Hai, Hc, Hn.
    + by rewrite Hai, Hc, Hn, Hp.
  - intros (client & text & Hai & Hc & Hn) t.
    rewrite (generateQuiz_trace_not_json _ _ _ Hai Hc Hn).
    intros Hin. repeat (apply elem_of_cons in Hin as [Hin|Hin]; [discriminate|]).
    by apply elem_of_nil in Hin.
Qed.

(** C5 (as amended).  [generateQuiz] returns successfully exactly when a
    credential is configured, the remote call yields a text whose trimmed
    form starts with a brace or bracket, and [JSON.parse] accepts it; the
    result is then the parsed value as it is.  The request carries the
    prompt and the schema that ask for the quiz, and nothing is checked
    afterwards. *)
Theorem generateQuiz_returns_parsed (reportText : jsstring) (v : JSON.value) :
  settles (generateQuiz API_KEY GoogleGenAI JSON_parse reportText) = Resolved v
  <-> exists client text,
        ai = Some client
        /\ client (quizRequest reportText) = Text text
        /\ notJsonLike (trim text) = false
        /\ JSON_parse (trim text) = Some v.
Proof.
  rewrite generateQuiz_settles. split.
  - destruct ai as [client|] eqn:Hai; [|done].
    destruct (client (quizRequest reportText)) as [text| |e] eqn:Hc; [|done|done].
    destruct (notJsonLike (trim text)) eqn:Hn; [done|].
    destruct (JSON_parse (trim text)) eqn:Hp; [|done].
    intros [= <-]. eauto 10.
  - intros (client & text & Hai & Hc & Hn & Hp).
    by rewrite Hai, Hc, Hn, Hp.
Qed.

End GatewayFacts.

(** C3 (the code at the failing input).  With a credential and a response
    that has no text, as the remote service gives for a blocked prompt, each
    of the two operations sends its request, logs nothing and resolves to
    [undefined]: not to a string. *)
Lemma text_operations_resolve_to_undefined :
  Gateway.generateSummary Gateway.someKey Gateway.blocked (lit "Abstract") (lit "abs")
  = ([Gateway.GenerateContent
        (Gateway.mkRequest Gateway.modelName
           (Gateway.summaryPrompt (lit "Abstract") (lit "abs")) None)],
     Gateway.Resolved None)
  /\ Gateway.answerQuestion Gateway.someKey Gateway.blocked (lit "report") (lit "why?")
     = ([Gateway.GenerateContent
           (Gateway.mkRequest Gateway.modelName
              (Gateway.answerPrompt (lit "report") (lit "why?")) None)],
        Gateway.Resolved None).
Proof. split; reflexivity. Qed.

(** C4 (counterexample to the claim as stated).  With a credential and a
    remote answer that is a lone opening brace, [generateQuiz] raises although
    none of the three listed cases applies: the text passes the prefix test
    and [JSON.parse] throws. *)
Lemma generateQuiz_raises_on_unparsable :
  JSON.parse_model (lit "{") = JSON.Throws
  /\ Gateway.settles
       (Gateway.generateQuiz Gateway.someKey (Gateway.answering (lit "{"))
          Gateway.JSON_parse_model (lit "report"))
     = Gateway.Rejected (Gateway.mkError Gateway.quizFailure)
  /\ ~ Gateway.raisesOnListedCasesOnly Gateway.someKey
         (Gateway.answering (lit "{")) Gateway.JSON_parse_model (lit "report").
Proof.
  split; [vm_compute; reflexivity|].
  split; [vm_compute; reflexivity|].
  unfold Gateway.raisesOnListedCasesOnly. intros [H _].
  destruct H as [H | [(client & e & Hai & Hc) | (client & text & Hai & Hc & Hn)]].
  - exists (Gateway.mkError Gateway.quizFailure). vm_compute. reflexivity.
  - vm_compute in H. discriminate.
  - vm_compute in Hai. injection Hai as <-. discriminate.
  - vm_compute in Hai. injection Hai as <-.
    injection Hc as <-. vm_compute in Hn. discriminate.
Qed.

(** C5 (counterexample to the claim as stated).  When the remote answers
    with an empty quiz, [generateQuiz] returns it: a success without five
    questions. *)
Lemma generateQuiz_returns_empty_quiz :
  let text := lit "{" ++ [DQUOTE] ++ lit "quiz" ++ [DQUOTE] ++ lit ":[]}" in
  let v := JSON.JObject [(lit "quiz", JSON.JArray [])] in
  Gateway.settles
    (Gateway.generateQuiz Gateway.someKey (Gateway.answering text)
       Gateway.JSON_parse_model (lit "report"))
  = Gateway.Resolved v
  /\ Gateway.wellFormedQuiz v = false
  /\ ~ Gateway.successIsWellFormed Gateway.someKey (Gateway.answering text)
         Gateway.JSON_parse_model (lit "report").
Proof.
  intros text v.
  assert (H : Gateway.settles
                (Gateway.generateQuiz Gateway.someKey (Gateway.answering text)
                   Gateway.JSON_parse_model (lit "report"))
              = Gateway.Resolved v) by (vm_compute; reflexivity).
  split; [exact H|]. split; [vm_compute; reflexivity|].
  intros Hc. specialize (Hc v H). vm_compute in Hc. discriminate.
Qed.

(** ** App: view and search term *)

(** C8.  Editing the search term leaves the view in Report with the new
    term applied, whatever the view was; navigation changes the view only,
    so the term is the same after any sequence of navigations, and is the
    one shown when the view is Report again. *)
Theorem search_term_and_navigation (st : App.State) (reportContent : jsstring) :
  (forall value,
     let st' := App.step st (App.EditSearch value) in
     App.view st' = App.home
     /\ App.searchTerm st' = value
     /\ App.renderContent reportContent st' = App.FullReport reportContent value)
  /\ (forall v, App.searchTerm (App.step st (App.Navigate v)) = App.searchTerm st)
  /\ (forall vs,
        App.searchTerm (fold_left App.step (map App.Navigate vs) st)
        = App.searchTerm st)
  /\ (forall vs,
        App.renderContent reportContent
          (fold_left App.step (map App.Navigate (vs ++ [App.home])) st)
        = App.FullReport reportContent (App.searchTerm st)).
Proof.
  assert (Hnav : forall vs s,
             App.searchTerm (fold_left App.step (map App.Navigate vs) s)
             = App.searchTerm s).
  { induction vs as [|v vs IH]; intros s; [done|]. simpl. by rewrite IH. }
  split; [|split; [|split]].
  - intros value. cbn [App.step]. unfold App.renderContent, App.onSearchChange.
    case_bool_decide as Hv; simpl; [done|].
    destruct (App.view st) eqn:E; try done; by destruct Hv.
  - done.
  - intros vs. apply Hnav.
  - intros vs. rewrite map_app, fold_left_app. simpl.
    unfold App.renderContent. simpl. by rewrite Hnav.
Qed.

(** ** Quiz store *)

Lemma filter_ext_elem {A} (P Q : A -> Prop)
    `{!forall x, Decision (P x)} `{!forall x, Decision (Q x)} (l : list A) :
  (forall x, x ∈ l -> P x <-> Q x) -> filter P l = filter Q l.
Proof.
  induction l as [|x l IH]; intros Hext; [done|].
  rewrite !filter_cons.
  assert (HP : P x <-> Q x) by (apply Hext; left).
  rewrite IH by (intros y Hy; apply Hext; by right).
  destruct (decide (P x)), (decide (Q x)); tauto || done.
Qed.

(** The loop of [calculateScore] counts the matching indices. *)
Lemma scoreFrom_count answers qs : forall k score,
  Quiz.scoreFrom answers k qs score
  = (score + length (filter (fun i => answers !! i = correctAnswer <$> qs !! (i - k)%nat)
                            (seq k (length qs))))%nat.
Proof.
  induction qs as [|q qs IH]; intros k score; simpl; [lia|].
  rewrite IH. rewrite filter_cons. replace (k - k)%nat with 0%nat by lia. simpl.
  rewrite (filter_ext_elem
             (fun i => answers !! i = correctAnswer <$> (q :: qs) !! (i - k)%nat)
             (fun i => answers !! i = correctAnswer <$> qs !! (i - S k)%nat)
             (seq (S k) (length qs))).
  - case_bool_decide; destruct (decide _); simpl; done || lia.
  - intros i [Hi _]%elem_of_seq.
    replace (i - k)%nat with (S (i - S k)) by lia. done.
Qed.

Lemma calculateScore_exactMatches (st : Quiz.State) :
  Quiz.calculateScore st = Quiz.exactMatches (Quiz.userAnswers st) (Quiz.questions st).
Proof.
  unfold Quiz.calculateScore, Quiz.exactMatches.
  rewrite scoreFrom_count. simpl. f_equal. apply filter_ext_elem.
  intros i _. by replace (i - 0)%nat with i by lia.
Qed.

Lemma quiz_invariant_initial : Quiz.invariant Quiz.initial.
Proof.
  split; simpl; [done | done |].
  intros k [x Hx]. by rewrite lookup_empty in Hx.
Qed.

Lemma answering_not_loading st :
  Quiz.invariant st -> Quiz.answering st = true -> Quiz.loading st = false.
Proof.
  intros Hinv Ha. destruct (Quiz.loading st) eqn:Hl; [|done].
  destruct (Quiz.quiz_loading_clean _ Hinv Hl) as (Hq & _).
  unfold Quiz.answering in Ha. rewrite Hq in Ha. simpl in Ha. done.
Qed.

Lemma quiz_invariant_step st ev :
  Quiz.invariant st -> Quiz.invariant (Quiz.step st ev).
Proof.
  intros Hinv. destruct ev as [|qi oi| |o]; simpl.
  - unfold Quiz.startDisabled. destruct (Quiz.loading st) eqn:Hl; [done|].
    pose proof (Quiz.quiz_pending _ Hinv) as Hp. rewrite Hl in Hp.
    split; simpl; [by rewrite Hp | done |].
    intros k [x Hx]. by rewrite lookup_empty in Hx.
  - destruct (Quiz.answering st) eqn:Ha; [|done].
    destruct (Quiz.questions st !! qi) as [q|] eqn:Hq; simpl; [|done].
    destruct (options q !! oi) as [opt|]; [|done].
    pose proof (answering_not_loading _ Hinv Ha) as Hl.
    split; simpl.
    + apply Hinv.
    + by rewrite Hl.
    + intros k Hk. destruct (decide (k = qi)) as [->|Hne].
      * by apply lookup_lt_Some in Hq.
      * rewrite lookup_insert_ne in Hk by done. by apply Hinv.
  - destruct (Quiz.submitEnabled st) eqn:He; [|done].
    apply andb_prop in He as [Ha _].
    pose proof (answering_not_loading _ Hinv Ha) as Hl.
    split; simpl; [apply Hinv | by rewrite Hl | apply Hinv].
  - unfold Quiz.settle. destruct (Quiz.pending st) as [|n] eqn:Hp; [done|].
    pose proof (Quiz.quiz_pending _ Hinv) as Hp'. rewrite Hp in Hp'.
    destruct (Quiz.loading st) eqn:Hl; [|done].
    injection Hp' as ->.
    destruct (Quiz.quiz_loading_clean _ Hinv Hl) as (Hq & Hu & Hs).
    assert (Hnone : forall (n : nat), is_Some (Quiz.userAnswers st !! n) -> False).
    { intros k [x Hx]. by rewrite Hu, lookup_empty in Hx. }
    destruct o as [[[[qs|]]|]|e]; split; simpl; try done;
      intros k Hk; by destruct (Hnone k).
Qed.

Lemma quiz_invariant_run evs : Quiz.invariant (Quiz.run evs).
Proof.
  unfold Quiz.run. generalize quiz_invariant_initial.
  generalize Quiz.initial as st. induction evs as [|ev evs IH]; intros st Hinv.
  - done.
  - simpl. apply IH. by apply quiz_invariant_step.
Qed.

Lemma answers_cover_iff (answers : gmap nat jsstring) (n : nat) :
  (forall k, is_Some (answers !! k) -> (k < n)%nat) ->
  (n <= size answers)%nat <-> forall i, (i < n)%nat -> is_Some (answers !! i).
Proof.
  intros Hrange.
  assert (Hsub : dom answers ⊆ (set_seq 0 n : gset nat)).
  { intros k Hk. apply elem_of_dom in Hk. apply elem_of_set_seq.
    split; [lia | by apply Hrange]. }
  assert (Hsize : size (dom answers) = size answers) by apply size_dom.
  assert (Hseq : size (set_seq 0 n : gset nat) = n) by apply size_set_seq.
  split.
  - intros Hn i Hi.
    assert (Heq : dom answers = (set_seq 0 n : gset nat)).
    { apply set_subseteq_size_eq; [done | lia]. }
    apply elem_of_dom. rewrite Heq. apply elem_of_set_seq. lia.
  - intros Hall.
    assert (Hsup : (set_seq 0 n : gset nat) ⊆ dom answers).
    { intros i [_ Hi]%elem_of_set_seq. apply elem_of_dom, Hall. lia. }
    apply subseteq_size in Hsup. lia.
Qed.

(** C6.  In every state the quiz store reaches with the questions on
    screen, the submit button is enabled exactly when every question index
    has a recorded answer; a disabled button does nothing, and pressing the
    enabled one leads to Submitted, where the score is the number of indices
    whose recorded answer equals the question's [correctAnswer]. *)
Theorem quiz_submit_and_score (evs : list Quiz.Event) :
  let st := Quiz.run evs in
  Quiz.answering st = true ->
  (Quiz.submitDisabled st = false
   <-> forall i, (i < length (Quiz.questions st))%nat ->
                 is_Some (Quiz.userAnswers st !! i))
  /\ (Quiz.submitDisabled st = true -> Quiz.step st Quiz.ClickSubmit = st)
  /\ (Quiz.submitDisabled st = false ->
      let st' := Quiz.step st Quiz.ClickSubmit in
      Quiz.phase st' = Quiz.Submitted
      /\ Quiz.questions st' = Quiz.questions st
      /\ Quiz.userAnswers st' = Quiz.userAnswers st
      /\ Quiz.calculateScore st'
         = Quiz.exactMatches (Quiz.userAnswers st) (Quiz.questions st)).
Proof.
  intros st Ha.
  pose proof (quiz_invariant_run evs) as Hinv. fold st in Hinv.
  pose proof (answering_not_loading _ Hinv Ha) as Hl.
  split; [|split].
  - unfold Quiz.submitDisabled.
    rewrite <- (answers_cover_iff _ _ (Quiz.quiz_answers_in_range _ Hinv)).
    rewrite bool_decide_eq_false. lia.
  - intros Hd. simpl. unfold Quiz.submitEnabled. by rewrite Ha, Hd.
  - intros Hd. simpl. unfold Quiz.submitEnabled. rewrite Ha, Hd. simpl.
    split; [|split; [done|split; [done|]]].
    + unfold Quiz.phase. simpl. by rewrite Hl.
    + by rewrite calculateScore_exactMatches.
Qed.

(** The theorem at a session that answers both questions of a quiz, one of
    them correctly. *)
Lemma quiz_submit_and_score_witness :
  Quiz.answering (Quiz.run sampleQuizSession) = true
  /\ Quiz.calculateScore (Quiz.step (Quiz.run sampleQuizSession) Quiz.ClickSubmit)
     = 1%nat.
Proof.
  assert (Ha : Quiz.answering (Quiz.run sampleQuizSession) = true)
    by (vm_compute; reflexivity).
  split; [exact Ha|].
  destruct (quiz_submit_and_score sampleQuizSession Ha) as (_ & _ & Hs).
  destruct Hs as (_ & _ & _ & ->); vm_compute; reflexivity.
Defined.

(** Before every index is answered the button is disabled: after one
    answer out of two, pressing submit changes nothing. *)
Lemma quiz_submit_disabled_example :
  let st := Quiz.run (take 3 sampleQuizSession) in
  Quiz.submitDisabled st = true /\ Quiz.step st Quiz.ClickSubmit = st.
Proof. vm_compute. split; reflexivity. Qed.

(** C7 (as amended).  The start action is carried out from Empty,
    InProgress and Submitted: the store goes to Loading with no questions,
    no answers and the submitted flag cleared, and one quiz is requested.
    In Loading the start button is disabled and the action does nothing. *)
Theorem start_new_quiz (st : Quiz.State) :
  match Quiz.phase st with
  | Quiz.Loading => Quiz.step st Quiz.ClickStart = st
  | Quiz.Empty | Quiz.InProgress | Quiz.Submitted =>
      let st' := Quiz.step st Quiz.ClickStart in
      st' = Quiz.callGenerateQuiz st
      /\ Quiz.phase st' = Quiz.Loading
      /\ Quiz.questions st' = []
      /\ Quiz.userAnswers st' = ∅
      /\ Quiz.showResults st' = false
      /\ Quiz.issued st' = (Quiz.issued st + 1)%nat
  end.
Proof.
  unfold Quiz.phase. simpl. unfold Quiz.startDisabled.
  destruct (Quiz.loading st) eqn:Hl; [done|].
  destruct (Quiz.showResults st); [done|].
  case_bool_decide; done.
Qed.

(** C7 (counterexample to the claim as stated).  In Loading the start
    action is not carried out: the state stays as it is and no second quiz
    is requested. *)
Lemma start_new_quiz_disabled_while_loading :
  let st := Quiz.run [Quiz.ClickStart] in
  Quiz.phase st = Quiz.Loading
  /\ Quiz.step st Quiz.ClickStart = st
  /\ Quiz.issued (Quiz.step st Quiz.ClickStart) = 1%nat
  /\ ~ Quiz.startAllowed st.
Proof.
  intros st. split; [done|]. split; [done|]. split; [done|].
  unfold Quiz.startAllowed. intros H.
  apply (f_equal Quiz.issued) in H. vm_compute in H. discriminate.
Qed.

(** ** Summaries store *)

Section SummariesFacts.

Variable sections : list DocSection.

Local Abbreviation step := (Summaries.step sections).
Local Abbreviation useEffect := (Summaries.useEffect sections).

(** Own entries decide the reads whenever they are truthy, and a falsy read
    has no truthy own entry behind it. *)
Lemma truthyBool_own (o : gmap jsstring bool) k :
  truthyFlag (o !! k) = true -> truthyBool (member o k) = true.
Proof. unfold member. by destruct (o !! k). Qed.

Lemma truthyText_own (o : gmap jsstring (option jsstring)) k :
  truthyString (o !! k) = true -> truthyText (member o k) = true.
Proof. unfold member. by destruct (o !! k). Qed.

Lemma truthyBool_false (o : gmap jsstring bool) k :
  truthyBool (member o k) = false ->
  truthyFlag (o !! k) = false /\ (o !! k = None -> inheritedMember k = false).
Proof.
  unfold member. destruct (o !! k); simpl; [done|].
  by destruct (inheritedMember k).
Qed.

Lemma truthyText_false (o : gmap jsstring (option jsstring)) k :
  truthyText (member o k) = false ->
  truthyString (o !! k) = false /\ (o !! k = None -> inheritedMember k = false).
Proof.
  unfold member. destruct (o !! k); simpl; [done|].
  by destruct (inheritedMember k).
Qed.

(** The guard of the effect, read off the own entries. *)
Lemma useEffect_guard st cur :
  negb (truthyText (member (Summaries.summaries st) (title cur)))
  && negb (truthyBool (member (Summaries.loading st) (title cur))) = true ->
  truthyString (Summaries.summaries st !! title cur) = false
  /\ truthyFlag (Summaries.loading st !! title cur) = false.
Proof.
  intros [Hs%negb_true_iff Hl%negb_true_iff]%andb_prop.
  split; [by apply truthyText_false | by apply truthyBool_false].
Qed.

Lemma summaries_invariant_initial : Summaries.invariant Summaries.initial.
Proof.
  split; simpl; [constructor|].
  intros t. rewrite lookup_empty. simpl. split; [by intros ?%elem_of_nil | done].
Qed.

Lemma summaries_invariant_useEffect st :
  Summaries.invariant st -> Summaries.invariant (useEffect st).
Proof.
  intros [Hnd Hpl]. unfold Summaries.useEffect.
  destruct (Summaries.currentSection sections st) as [cur|]; [|done].
  destruct (negb (truthyText _) && negb (truthyBool _)) eqn:Hg; [|done].
  apply useEffect_guard in Hg as [_ Hl].
  assert (Hnot : title cur ∉ Summaries.pending st).
  { intros Hin. apply Hpl in Hin. congruence. }
  split; simpl.
  - apply NoDup_app. split; [done|]. split; [|apply NoDup_singleton].
    intros x Hx ->%list_elem_of_singleton. done.
  - intros t. rewrite elem_of_app, list_elem_of_singleton.
    destruct (decide (t = title cur)) as [->|Hne].
    + rewrite lookup_insert_eq. simpl. tauto.
    + rewrite lookup_insert_ne by done. rewrite <- Hpl. tauto.
Qed.

Lemma elem_of_delete_NoDup {A} (l : list A) i t x :
  NoDup l -> l !! i = Some t ->
  x ∈ delete i l <-> x ∈ l /\ x <> t.
Proof.
  intros Hnd Hi.
  pose proof (take_drop_middle l i t Hi) as Hl.
  assert (Hmem : x ∈ l <-> x ∈ take i l \/ x = t \/ x ∈ drop (S i) l).
  { rewrite <- Hl at 1. rewrite elem_of_app, elem_of_cons. tauto. }
  rewrite <- Hl in Hnd.
  apply NoDup_app in Hnd as (_ & Hdisj & [Ht _]%NoDup_cons).
  rewrite delete_take_drop, elem_of_app, Hmem.
  split.
  - intros [Hin|Hin]; (split; [tauto|]); intros ->.
    + apply (Hdisj t Hin). left.
    + done.
  - tauto.
Qed.

Lemma filter_eq_not_elem {A} `{EqDecision A} (l : list A) t :
  t ∉ l -> filter (fun p => p = t) l = [].
Proof.
  induction l as [|x l IH]; [done|].
  intros [Hne Hl]%not_elem_of_cons.
  rewrite filter_cons_False by (by intros ->). by apply IH.
Qed.

Lemma summaries_invariant_apply st ev :
  Summaries.invariant st -> Summaries.invariant (Summaries.apply sections ev st).
Proof.
  intros Hinv. destruct ev as [| |i o]; simpl.
  - destruct (Summaries.nextDisabled sections st); [done|].
    unfold Summaries.handleNext. case_bool_decide; [|done].
    destruct Hinv; by split.
  - destruct (Summaries.prevDisabled sections st); [done|].
    unfold Summaries.handlePrev. case_bool_decide; [|done].
    destruct Hinv; by split.
  - unfold Summaries.settle.
    destruct (Summaries.pending st !! i) as [t|] eqn:Hi; [|done].
    destruct Hinv as [Hnd Hpl]. split; simpl.
    + by apply (sublist_NoDup _ _ Hnd), sublist_delete.
    + intros x. rewrite (elem_of_delete_NoDup _ i t x Hnd Hi).
      destruct (decide (x = t)) as [->|Hne].
      * rewrite lookup_insert_eq. simpl. split; [tauto | done].
      * rewrite lookup_insert_ne by done. rewrite <- Hpl. tauto.
Qed.

Lemma summaries_invariant_step st ev :
  Summaries.invariant st -> Summaries.invariant (step st ev).
Proof.
  intros H. by apply summaries_invariant_useEffect, summaries_invariant_apply.
Qed.

Lemma summaries_invariant_steps evs : forall st,
  Summaries.invariant st -> Summaries.invariant (fold_left step evs st).
Proof.
  induction evs as [|ev evs IH]; intros st H; [done|].
  simpl. by apply IH, summaries_invariant_step.
Qed.

Lemma summaries_invariant_run evs :
  Summaries.invariant (Summaries.run sections evs).
Proof.
  apply summaries_invariant_steps, summaries_invariant_useEffect,
    summaries_invariant_initial.
Qed.

(** At most one request per title is in flight, in every reachable state. *)
Lemma at_most_one_in_flight evs t :
  (Summaries.inFlight t (Summaries.run sections evs) <= 1)%nat.
Proof.
  destruct (summaries_invariant_run evs) as [Hnd _].
  unfold Summaries.inFlight.
  induction Hnd as [|x l Hx _ IH]; [simpl; lia|].
  rewrite filter_cons. destruct (decide (x = t)) as [->|]; [|lia].
  rewrite filter_eq_not_elem by done. simpl. lia.
Qed.

(** Visiting a title with no summary and no loading flag calls the gateway
    once, for that title. *)
Lemma useEffect_requests st cur :
  Summaries.currentSection sections st = Some cur ->
  inheritedMember (title cur) = false ->
  truthyString (Summaries.summaries st !! title cur) = false ->
  truthyFlag (Summaries.loading st !! title cur) = false ->
  Summaries.issued (useEffect st)
  = Summaries.issued st ++ [(title cur, content cur)]
  /\ truthyFlag (Summaries.loading (useEffect st) !! title cur) = true.
Proof.
  intros Hc Hin Hs Hl. unfold Summaries.useEffect, member.
  rewrite Hc, Hin.
  destruct (Summaries.summaries st !! title cur);
    destruct (Summaries.loading st !! title cur); simpl in *;
    rewrite ?Hs, ?Hl; simpl; by rewrite lookup_insert_eq.
Qed.

(** While the title is loading, or once it has a non-empty summary, the
    effect does nothing. *)
Lemma useEffect_suppressed st cur :
  Summaries.currentSection sections st = Some cur ->
  truthyFlag (Summaries.loading st !! title cur) = true
  \/ truthyString (Summaries.summaries st !! title cur) = true ->
  useEffect st = st.
Proof.
  intros Hc H. unfold Summaries.useEffect. rewrite Hc.
  destruct H as [H%truthyBool_own | H%truthyText_own]; rewrite H; simpl; [|done].
  by rewrite andb_false_r.
Qed.

(** Running the effect again on its own result changes nothing, so a
    render that changes no cell needs no separate treatment. *)
Lemma useEffect_idempotent st : useEffect (useEffect st) = useEffect st.
Proof.
  destruct (Summaries.currentSection sections st) as [cur|] eqn:Hc.
  - destruct (negb (truthyText (member (Summaries.summaries st) (title cur)))
              && negb (truthyBool (member (Summaries.loading st) (title cur)))) eqn:Hg.
    + assert (E : useEffect st
                  = Summaries.callGenerateSummary (title cur) (content cur) st)
        by (unfold Summaries.useEffect; by rewrite Hc, Hg).
      rewrite E. apply (useEffect_suppressed _ cur); [exact Hc|].
      left. simpl. by rewrite lookup_insert_eq.
    + assert (E : useEffect st = st)
        by (unfold Summaries.useEffect; by rewrite Hc, Hg).
      by rewrite !E.
  - assert (E : useEffect st = st)
      by (unfold Summaries.useEffect; by rewrite Hc).
    by rewrite !E.
Qed.

(** Once settled, a title stays settled with the same summary, and no
    further call is made for it. *)
Lemma settled_step t st ev :
  Summaries.settled t st ->
  Summaries.settled t (step st ev)
  /\ Summaries.summaries (step st ev) !! t = Summaries.summaries st !! t
  /\ Summaries.callsFor t (step st ev) = Summaries.callsFor t st.
Proof.
  intros [Hs Hp].
  assert (Happ : Summaries.settled t (Summaries.apply sections ev st)
                 /\ Summaries.summaries (Summaries.apply sections ev st) !! t
                    = Summaries.summaries st !! t
                 /\ Summaries.issued (Summaries.apply sections ev st)
                    = Summaries.issued st).
  { destruct ev as [| |i o]; simpl.
    - destruct (Summaries.nextDisabled sections st); [done|].
      unfold Summaries.handleNext. by case_bool_decide.
    - destruct (Summaries.prevDisabled sections st); [done|].
      unfold Summaries.handlePrev. by case_bool_decide.
    - unfold Summaries.settle.
      destruct (Summaries.pending st !! i) as [t'|] eqn:Hi; [|done].
      assert (Hne : t' <> t).
      { intros ->. apply Hp. by eapply list_elem_of_lookup_2. }
      unfold Summaries.settled. simpl. rewrite lookup_insert_ne by done.
      split; [|done]. split; [done|].
      intros Hin. apply Hp. revert Hin.
      apply (sublist_subseteq _ _ (sublist_delete _ i)). }
  destruct Happ as ([Hs' Hp'] & Hsum & Hiss).
  unfold Summaries.step, Summaries.useEffect, Summaries.callsFor.
  destruct (Summaries.currentSection sections _) as [cur|]; [|by rewrite Hiss].
  destruct (negb (truthyText _) && negb (truthyBool _)) eqn:Hg; [|by rewrite Hiss].
  apply useEffect_guard in Hg as [Hg _].
  assert (Hne : title cur <> t).
  { intros E. rewrite E, Hs' in Hg. done. }
  unfold Summaries.settled. simpl. rewrite Hiss, filter_app.
  rewrite (filter_cons_False _ (title cur, content cur)) by (simpl; congruence).
  rewrite app_nil_r. split; [|done]. split; [done|].
  intros [Hin| ->%list_elem_of_singleton]%elem_of_app; done.
Qed.

Lemma settled_steps t evs : forall st,
  Summaries.settled t st ->
  Summaries.settled t (fold_left step evs st)
  /\ Summaries.summaries (fold_left step evs st) !! t = Summaries.summaries st !! t
  /\ Summaries.callsFor t (fold_left step evs st) = Summaries.callsFor t st.
Proof.
  induction evs as [|ev evs IH]; intros st Hs; [done|].
  simpl. destruct (settled_step t st ev Hs) as (Hs' & Hsum & Hcalls).
  destruct (IH _ Hs') as (? & -> & ->). done.
Qed.

(** Were the summary stored and rendered before the loading flag is
    cleared, the effect of that render would do nothing: the settling title
    is still loading, and any other current title was dealt with by the
    effect that ran before. *)
Lemma useEffect_between_updates (evs : list Summaries.Event) (i : nat)
    (t : jsstring) (summaryText : option jsstring) :
  let st := Summaries.run sections evs in
  Summaries.pending st !! i = Some t ->
  useEffect (Summaries.storeSummary t summaryText st)
  = Summaries.storeSummary t summaryText st.
Proof.
  intros st Hi.
  destruct (summaries_invariant_run evs) as [_ Hpl]. fold st in Hpl.
  assert (Hfix : useEffect st = st).
  { subst st. unfold Summaries.run.
    destruct evs as [|ev evs _] using rev_ind.
    - apply useEffect_idempotent.
    - rewrite fold_left_app. simpl. apply useEffect_idempotent. }
  assert (Hload : truthyFlag (Summaries.loading st !! t) = true).
  { apply Hpl. by eapply list_elem_of_lookup_2. }
  unfold Summaries.useEffect in Hfix |- *.
  change (Summaries.currentSection sections (Summaries.storeSummary t summaryText st))
    with (Summaries.currentSection sections st).
  destruct (Summaries.currentSection sections st) as [cur|]; [|done].
  simpl. destruct (decide (title cur = t)) as [->|Hne].
  - by rewrite (truthyBool_own _ _ Hload), andb_false_r.
  - unfold member at 1. rewrite lookup_insert_ne by done.
    fold (member (Summaries.summaries st) (title cur)).
    destruct (negb (truthyText _) && negb (truthyBool _)); [|done].
    apply (f_equal Summaries.pending) in Hfix. simpl in Hfix.
    apply (f_equal length) in Hfix. rewrite length_app in Hfix. simpl in Hfix. lia.
Qed.

(** A stored non-empty summary is final: once the call for a title settles
    with a non-empty text, the title keeps that text, nothing is in flight
    for it, and no later event of the store calls the gateway for it. *)
Lemma stored_summary_is_kept (evs evs' : list Summaries.Event) (i : nat)
    (t : jsstring) (o : Gateway.Outcome (option jsstring)) :
  let st := Summaries.run sections evs in
  Summaries.pending st !! i = Some t ->
  truthy (Summaries.storedText o) = true ->
  let st1 := step st (Summaries.Settle i o) in
  let st2 := fold_left step evs' st1 in
  Summaries.summaries st1 !! t = Some (Summaries.storedText o)
  /\ Summaries.summaries st2 !! t = Some (Summaries.storedText o)
  /\ Summaries.callsFor t st2 = Summaries.callsFor t st1
  /\ Summaries.inFlight t st2 = 0%nat.
Proof.
  intros st Hi Ho st1 st2.
  destruct (summaries_invariant_run evs) as [Hnd Hpl]. fold st in Hnd, Hpl.
  set (st0 := Summaries.apply sections (Summaries.Settle i o) st).
  assert (Hsum0 : Summaries.summaries st0 !! t = Some (Summaries.storedText o)).
  { unfold st0. simpl. unfold Summaries.settle. rewrite Hi. simpl.
    by rewrite lookup_insert_eq. }
  assert (Hpend0 : t ∉ Summaries.pending st0).
  { unfold st0. simpl. unfold Summaries.settle. rewrite Hi. simpl.
    rewrite (elem_of_delete_NoDup _ i t t Hnd Hi). tauto. }
  assert (Hset1 : Summaries.settled t st1
                  /\ Summaries.summaries st1 !! t = Some (Summaries.storedText o)).
  { subst st1. unfold Summaries.step. fold st0.
    unfold Summaries.useEffect, Summaries.settled.
    destruct (Summaries.currentSection sections st0) as [cur|];
      [|by rewrite Hsum0].
    destruct (negb (truthyText _) && negb (truthyBool _)) eqn:Hg;
      [|by rewrite Hsum0].
    apply useEffect_guard in Hg as [Hg _].
    assert (Hne : title cur <> t).
    { intros E. rewrite E, Hsum0 in Hg. simpl in Hg. by rewrite Ho in Hg. }
    simpl. rewrite Hsum0. repeat split; try done.
    intros [Hin| ->%list_elem_of_singleton]%elem_of_app; done. }
  destruct Hset1 as [Hset1 Hsum1].
  destruct (settled_steps t evs' st1 Hset1) as ([_ Hp2] & Hsum2 & Hcalls2).
  split; [done|]. split; [by rewrite <- Hsum1|]. split; [done|].
  unfold Summaries.inFlight. fold st2. by rewrite filter_eq_not_elem.
Qed.

(** C10 (as amended).  When a summarize request fails, whether the gateway
    resolves to its failure text or the call is rejected, the failure text
    is stored as the summary of the title, and from then on no event of this
    Summaries view, paging away and back included, issues another call for
    that title: the text stays. *)
Theorem failed_summary_is_kept (evs evs' : list Summaries.Event) (i : nat)
    (t : jsstring) (o : Gateway.Outcome (option jsstring)) :
  let st := Summaries.run sections evs in
  Summaries.pending st !! i = Some t ->
  o = Gateway.Resolved (Some Gateway.summaryFallback) \/ (exists e, o = Gateway.Rejected e) ->
  let st1 := step st (Summaries.Settle i o) in
  let st2 := fold_left step evs' st1 in
  Summaries.summaries st1 !! t = Some (Some Gateway.summaryFallback)
  /\ Summaries.summaries st2 !! t = Some (Some Gateway.summaryFallback)
  /\ Summaries.callsFor t st2 = Summaries.callsFor t st1
  /\ Summaries.inFlight t st2 = 0%nat.
Proof.
  intros st Hi Ho.
  assert (Htext : Summaries.storedText o = Some Gateway.summaryFallback)
    by (by destruct Ho as [-> | [e ->]]).
  rewrite <- Htext. apply stored_summary_is_kept; [done|].
  by rewrite Htext.
Qed.

(** Entering the view anew starts from the initial cells: the first
    section is requested, whatever an earlier instance had stored, unless
    its title names an inherited member. *)
Lemma mount_requests_first s rest :
  sections = s :: rest ->
  inheritedMember (title s) = false ->
  Summaries.issued (Summaries.mount sections) = [(title s, content s)].
Proof.
  intros -> Hin. unfold Summaries.mount, Summaries.useEffect, member. simpl.
  by rewrite !lookup_empty, Hin.
Qed.

End SummariesFacts.

(** The texts the sample sessions settle with are what [generateSummary]
    resolves to at a failing remote and at a remote that answers with the
    empty string. *)
Lemma sample_summaries_from_gateway :
  Gateway.settles
    (Gateway.generateSummary Gateway.someKey Gateway.failing (lit "Abstract") (lit "abs"))
  = Gateway.Resolved (Some Gateway.summaryFallback)
  /\ Gateway.settles
       (Gateway.generateSummary Gateway.someKey (Gateway.answering [])
          (lit "Abstract") (lit "abs"))
     = Gateway.Resolved (Some []).
Proof. split; reflexivity. Qed.

(** The theorem at the session in which the first summary fails and the
    user pages away and back. *)
Lemma failed_summary_is_kept_witness :
  let st := Summaries.run twoSections failThenReturn in
  Summaries.summaries st !! lit "Abstract" = Some (Some Gateway.summaryFallback)
  /\ Summaries.callsFor (lit "Abstract") st = 1%nat.
Proof.
  assert (Hp : Summaries.pending (Summaries.run twoSections []) !! 0%nat
               = Some (lit "Abstract")) by (vm_compute; reflexivity).
  destruct (failed_summary_is_kept twoSections [] (drop 1 failThenReturn) 0
              (lit "Abstract") (Gateway.Resolved (Some Gateway.summaryFallback)) Hp
              (or_introl eq_refl))
    as (_ & Hsum & Hcalls & _).
  split; [exact Hsum|].
  etransitivity; [exact Hcalls|]. vm_compute. reflexivity.
Defined.

(** C10 (counterexample to the claim as stated).  The summary of Abstract
    fails; the user pages to the next section and back.  The view shows the
    stored failure text and no second call for Abstract has been made. *)
Lemma failed_summary_not_requested_again :
  let failed := Summaries.run twoSections (take 1 failThenReturn) in
  let back := Summaries.run twoSections failThenReturn in
  Summaries.summaries failed !! lit "Abstract" = Some (Some Gateway.summaryFallback)
  /\ Summaries.currentKey twoSections back = lit "Abstract"
  /\ Summaries.issued back
     = [(lit "Abstract", lit "abs"); (lit "I. X", lit "foo")]
  /\ Summaries.pending back = []
  /\ ~ (Summaries.callsFor (lit "Abstract") failed
        < Summaries.callsFor (lit "Abstract") back)%nat.
Proof.
  split; [vm_compute; reflexivity|].
  split; [vm_compute; reflexivity|].
  split; [vm_compute; reflexivity|].
  split; [vm_compute; reflexivity|].
  vm_compute. lia.
Qed.

(** C9 (the code at the failing input).  The call for Abstract resolves to
    the empty string.  The title is loaded, with the empty text stored and
    the flag cleared, and the effect after that render calls the gateway for
    Abstract a second time, with no navigation at all. *)
Lemma empty_summary_is_requested_again :
  let loaded := Summaries.apply twoSections
                  (Summaries.Settle 0 (Gateway.Resolved (Some [])))
                  (Summaries.mount twoSections) in
  let st := Summaries.run twoSections emptySummary in
  Summaries.summaries loaded !! lit "Abstract" = Some (Some [])
  /\ Summaries.loading loaded !! lit "Abstract" = Some false
  /\ Summaries.pending loaded = []
  /\ st = Summaries.useEffect twoSections loaded
  /\ Summaries.issued st
     = [(lit "Abstract", lit "abs"); (lit "Abstract", lit "abs")]
  /\ Summaries.pending st = [lit "Abstract"].
Proof.
  split; [vm_compute; reflexivity|].
  split; [vm_compute; reflexivity|].
  split; [vm_compute; reflexivity|].
  split; [vm_compute; reflexivity|].
  split; vm_compute; reflexivity.
Qed.

(** ** The reference document *)

(** On the report itself: five heading lines, the first of them the
    Abstract heading, and five sections, titled by the headings in order.
    The Abstract section comes from the marker span, the Abstract block of
    the line scan is dropped, and no heading block is blank. *)
Lemma parseSections_report :
  map headingTitle (headingLines reportContent)
  = [lit "Abstract";
     lit "I. The Core Framework: A Scale of Existence";
     lit "II. The Encompassing Elements: The Unified Field of Consciousness";
     lit "III. The Psychological and Philosophical Interconnection";
     lit "Conclusion"]
  /\ map title (parseSections reportContent)
     = map headingTitle (headingLines reportContent)
  /\ Forall (fun s => nonempty (content s) = true) (parseSections reportContent)
  /\ startsWith (content (abstractSection reportContent))
                (lit "This report provides") = true.
Proof.
  split; [vm_compute; reflexivity|].
  split; [vm_compute; reflexivity|].
  split; [|vm_compute; reflexivity].
  apply Forall_forall. intros s Hs.
  apply list_elem_of_In in Hs. revert s Hs. apply List.Forall_forall.
  vm_compute. repeat constructor.
Qed.

(* ===================================================================== *)
(** * Further properties *)

(** ** String primitives *)

Lemma startsWith_nil s : startsWith s [] = true.
Proof. by destruct s. Qed.

Lemma startsWith_cons c s p :
  startsWith (c :: s) p
  = match p with
    | [] => true
    | a :: p' => if bool_decide (a = c) then startsWith s p' else false
    end.
Proof. by destruct p. Qed.

(** [startsWith] holds exactly of the texts that begin with the pattern. *)
Lemma startsWith_true s p : startsWith s p = true <-> exists r, s = p ++ r.
Proof.
  revert s. induction p as [|a p IH]; intros s.
  - rewrite startsWith_nil. split; [by exists s | done].
  - destruct s as [|c s]; simpl.
    + split; [done | by intros [r Hr]].
    + case_bool_decide as Hac.
      * subst c. rewrite IH. split; intros [r Hr]; exists r; congruence.
      * split; [done|]. intros [r Hr]. congruence.
Qed.

Lemma indexFrom_unfold i s p :
  indexFrom i s p
  = if startsWith s p then i
    else match s with [] => -1 | _ :: s' => indexFrom (i + 1) s' p end.
Proof. by destruct s. Qed.

(** [indexOf] finds the first occurrence: at the position it returns the
    pattern occurs and before it it does not; -1 means no occurrence. *)
Lemma indexFrom_spec p s : forall i,
  (indexFrom i s p = -1
   /\ forall j, (j <= length s)%nat -> startsWith (drop j s) p = false)
  \/ (exists k, indexFrom i s p = i + Z.of_nat k
                /\ (k <= length s)%nat
                /\ startsWith (drop k s) p = true
                /\ forall j, (j < k)%nat -> startsWith (drop j s) p = false).
Proof.
  induction s as [|c s IH]; intros i; rewrite indexFrom_unfold.
  - destruct (startsWith [] p) eqn:Hp.
    + right. exists 0%nat. repeat split; [lia | done | done | lia].
    + left. split; [done|]. intros j Hj. by rewrite drop_nil.
  - destruct (startsWith (c :: s) p) eqn:Hp.
    + right. exists 0%nat. repeat split; [lia | simpl; lia | done | lia].
    + destruct (IH (i + 1)) as [[Hm Hno] | (k & Hk & Hle & Hat & Hbefore)].
      * left. split; [done|]. intros [|j] Hj; [done|].
        simpl. apply Hno. simpl in Hj. lia.
      * right. exists (S k). repeat split.
        -- rewrite Hk. lia.
        -- simpl. lia.
        -- done.
        -- intros [|j] Hj; [done|]. simpl. apply Hbefore. lia.
Qed.

Lemma indexOf_spec s p :
  (indexOf s p = -1
   /\ forall j, (j <= length s)%nat -> startsWith (drop j s) p = false)
  \/ (exists k, indexOf s p = Z.of_nat k
                /\ (k <= length s)%nat
                /\ startsWith (drop k s) p = true
                /\ forall j, (j < k)%nat -> startsWith (drop j s) p = false).
Proof.
  unfold indexOf. destruct (indexFrom_spec p s 0) as [H | (k & Hk & H)].
  - by left.
  - right. exists k. by rewrite Hk.
Qed.

(** Without an occurrence of the pattern [replace] changes nothing. *)
Lemma replaceFirst_absent p r s :
  (forall j, (j <= length s)%nat -> startsWith (drop j s) p = false) ->
  replaceFirst s p r = s.
Proof.
  induction s as [|c s IH]; intros Hno.
  - pose proof (Hno 0%nat ltac:(simpl; lia)) as H0.
    change (drop 0 (@nil N)) with (@nil N) in H0.
    cbn [replaceFirst]. by rewrite H0.
  - pose proof (Hno 0%nat ltac:(simpl; lia)) as H0.
    change (drop 0 (c :: s)) with (c :: s) in H0.
    cbn [replaceFirst]. rewrite H0. f_equal. apply IH.
    intros j Hj. apply (Hno (S j)). simpl. lia.
Qed.

(** A text that begins with the pattern loses exactly that beginning. *)
Lemma replaceFirst_prefix p r s :
  startsWith s p = true -> replaceFirst s p r = r ++ drop (length p) s.
Proof. intros H. destruct s; cbn [replaceFirst]; by rewrite H. Qed.

Lemma substring_in_range s (a b : nat) :
  (a <= b)%nat -> (b <= length s)%nat ->
  substring s (Z.of_nat a) (Z.of_nat b) = take (b - a) (drop a s).
Proof.
  intros Hab Hb. unfold substring.
  replace (Z.min (Z.max (Z.of_nat a) 0) (Z.of_nat (length s))) with (Z.of_nat a) by lia.
  replace (Z.min (Z.max (Z.of_nat b) 0) (Z.of_nat (length s))) with (Z.of_nat b) by lia.
  replace (Z.min (Z.of_nat a) (Z.of_nat b)) with (Z.of_nat a) by lia.
  replace (Z.max (Z.of_nat a) (Z.of_nat b)) with (Z.of_nat b) by lia.
  rewrite Nat2Z.id. f_equal. lia.
Qed.

(** A negative end counts as zero and the ends are swapped: the text in
    front of the start comes back. *)
Lemma substring_negative_end s (a : Z) :
  -1 <= a <= Z.of_nat (length s) ->
  substring s a (-1) = take (Z.to_nat a) s.
Proof.
  intros Ha. unfold substring.
  replace (Z.min (Z.max (-1) 0) (Z.of_nat (length s))) with 0 by lia.
  replace (Z.min (Z.max a 0) (Z.of_nat (length s))) with (Z.max a 0) by lia.
  replace (Z.min (Z.max a 0) 0) with 0 by lia.
  replace (Z.max (Z.max a 0) 0) with (Z.max a 0) by lia.
  simpl. rewrite Z.sub_0_r. f_equal. lia.
Qed.

Lemma trimStart_suffix s : exists pre, s = pre ++ trimStart s.
Proof.
  induction s as [|c s [pre IH]]; [by exists []|].
  simpl. destruct (isWhiteSpace c).
  - exists (c :: pre). simpl. congruence.
  - by exists [].
Qed.

Lemma trimStart_head s c r : trimStart s = c :: r -> isWhiteSpace c = false.
Proof.
  induction s as [|d s IH]; [done|].
  simpl. destruct (isWhiteSpace d) eqn:Hd; [done|]. by intros [= <- _].
Qed.

Lemma trimStart_fixed c r :
  isWhiteSpace c = false -> trimStart (c :: r) = c :: r.
Proof. intros Hc. simpl. by rewrite Hc. Qed.

(** A trailing whitespace character does not survive [trimStart] of an
    all-whitespace text, and stays at the end otherwise. *)
Lemma trimStart_snoc s c :
  isWhiteSpace c = true ->
  trimStart (s ++ [c])
  = match trimStart s with [] => [] | _ :: _ => trimStart s ++ [c] end.
Proof.
  intros Hc. induction s as [|d s IH]; simpl.
  - by rewrite Hc.
  - destruct (isWhiteSpace d); [done|]. done.
Qed.

(** [trim] ignores a whitespace character at the end. *)
Lemma trim_snoc s c : isWhiteSpace c = true -> trim (s ++ [c]) = trim s.
Proof.
  intros Hc. unfold trim, trimEnd. rewrite (trimStart_snoc _ _ Hc).
  destruct (trimStart s) as [|d r] eqn:E; [done|].
  rewrite rev_app_distr. simpl. by rewrite Hc.
Qed.

(** What [trim] returns neither begins nor ends with whitespace. *)
Lemma trim_ends s c r :
  trim s = c :: r ->
  isWhiteSpace c = false
  /\ exists d, last (trim s) = Some d /\ isWhiteSpace d = false.
Proof.
  unfold trim, trimEnd. intros H.
  destruct (trimStart s) as [|u us] eqn:Hu; [done|].
  pose proof (trimStart_head _ _ _ Hu) as Hunw.
  destruct (trimStart (rev (u :: us))) as [|t ts] eqn:Ht; [done|].
  pose proof (trimStart_head _ _ _ Ht) as Htnw.
  destruct (trimStart_suffix (rev (u :: us))) as [pre Hpre].
  rewrite Ht in Hpre.
  split.
  - apply (f_equal (@rev N)) in Hpre. rewrite rev_involutive, rev_app_distr in Hpre.
    rewrite H in Hpre. simpl in Hpre. by injection Hpre as <- _.
  - exists t. split; [|done].
    change (rev (t :: ts)) with (rev ts ++ [t]). by rewrite last_snoc.
Qed.

(** [trim] changes nothing when applied again. *)
Lemma trim_idempotent s : trim (trim s) = trim s.
Proof.
  destruct (trim s) as [|c r] eqn:E; [done|].
  destruct (trim_ends _ _ _ E) as (Hc & d & Hd & Hdw). rewrite E in Hd.
  unfold trim, trimEnd. rewrite (trimStart_fixed c r) by done.
  destruct (rev (c :: r)) as [|x xs] eqn:Hr.
  - apply (f_equal (@rev N)) in Hr. by rewrite rev_involutive in Hr.
  - assert (x = d).
    { apply (f_equal (@rev N)) in Hr. rewrite rev_involutive in Hr.
      rewrite Hr in Hd. simpl in Hd. rewrite last_snoc in Hd. congruence. }
    subst x. rewrite (trimStart_fixed d xs) by done.
    by rewrite <- Hr, rev_involutive.
Qed.

(** Joining the lines again, each with its line feed, gives the text with
    one line feed more. *)
Lemma split_lines_join s :
  concat (map (fun l => l ++ [LF]) (split_lines s)) = s ++ [LF].
Proof.
  induction s as [|c s IH]; [done|].
  cbn [split_lines]. case_bool_decide as Hc.
  - subst c. simpl. by rewrite IH.
  - pose proof (split_lines_nonempty s) as Hne.
    destruct (split_lines s) as [|l ls]; [done|].
    simpl in IH |- *. by rewrite IH.
Qed.

(** No line holds a line feed. *)
Lemma split_lines_no_LF s : Forall (fun l => LF ∉ l) (split_lines s).
Proof.
  induction s as [|c s IH]; cbn [split_lines].
  - repeat constructor. by intros ?%elem_of_nil.
  - case_bool_decide as Hc.
    + constructor; [by intros ?%elem_of_nil | done].
    + destruct (split_lines s) as [|l ls].
      * repeat constructor. intros [E|Hin]%elem_of_cons; [by subst|].
        by apply elem_of_nil in Hin.
      * inversion IH; subst. constructor; [|done].
        intros [E|Hin]%elem_of_cons; [by subst | done].
Qed.

(** ** Sectionizer: edge cases *)

Lemma no_heading_lines lines :
  filter (fun l => isHeadingLine l = true) lines = [] ->
  bodyText lines = concat (map (fun l => l ++ [LF]) lines)
  /\ headingBlocks lines = [].
Proof.
  induction lines as [|l ls IH]; [done|].
  intros Hf. cbn [bodyText headingBlocks].
  destruct (isHeadingLine l) eqn:Hl.
  - by rewrite filter_cons_True in Hf.
  - rewrite filter_cons_False in Hf by (by rewrite Hl).
    destruct (IH Hf) as [-> ->]. simpl. by rewrite <- app_assoc.
Qed.

(** X1.  A document without heading lines: the Abstract section from the
    marker span alone when the text is blank, and otherwise a second section,
    also titled Abstract, that holds the whole trimmed text (the block open
    at the end of the input is flushed without a look at its title). *)
Theorem parseSections_no_headings (text : jsstring) :
  headingLines text = [] ->
  parseSections text
  = abstractSection text
    :: (if nonempty (trim text)
        then [mkSection (lit "Abstract") (trim text)] else []).
Proof.
  intros Hno. rewrite parseSections_blocks. f_equal.
  unfold allBlocks. destruct (no_heading_lines _ Hno) as [-> ->].
  rewrite split_lines_join. cbn [emitted]. unfold isBlank. cbn [blockBody].
  assert (Ht : trim (text ++ [LF]) = trim text)
    by (apply trim_snoc; vm_compute; reflexivity).
  rewrite Ht. destruct (nonempty (trim text)); cbn [negb map]; [|done].
  unfold sectionOf. cbn [blockBody blockTitle]. by rewrite Ht.
Qed.

(** The theorem at a one-line text without heading. *)
Lemma parseSections_no_headings_witness :
  map title (parseSections (lit "no heading here"))
  = [lit "Abstract"; lit "Abstract"].
Proof.
  rewrite (parseSections_no_headings (lit "no heading here"))
    by (vm_compute; reflexivity).
  vm_compute. reflexivity.
Defined.

(** The two markers cannot overlap: an occurrence of the second one at or
    after an occurrence of the Abstract heading starts behind it. *)
Lemma markers_apart text (a b : nat) :
  startsWith (drop a text) (lit "## Abstract") = true ->
  startsWith (drop b text) (lit "## I. The Core Framework") = true ->
  (a <= b)%nat -> (a + 11 <= b)%nat.
Proof.
  intros [r Hr]%startsWith_true [r' Hr']%startsWith_true Hab.
  destruct (decide (a + 11 <= b)%nat) as [|Hlt]; [done|]. exfalso.
  assert (Hd : exists d, b = (a + d)%nat /\ (d < 11)%nat) by (exists (b - a)%nat; lia).
  destruct Hd as (d & -> & Hd).
  rewrite <- drop_drop, Hr in Hr'.
  do 11 (destruct d as [|d]; [vm_compute in Hr'; discriminate|]).
  lia.
Qed.

(** X2.  When the Abstract heading first occurs before the first occurrence
    of the marker [## I. The Core Framework], the content of the Abstract
    section is the trimmed text between the end of that heading and the
    marker. *)
Theorem abstractSection_between_markers (text : jsstring) (a b : nat) :
  indexOf text (lit "## Abstract") = Z.of_nat a ->
  indexOf text (lit "## I. The Core Framework") = Z.of_nat b ->
  (a <= b)%nat ->
  abstractSection text
  = mkSection (lit "Abstract")
              (trim (take (b - (a + 11)) (drop (a + 11) text))).
Proof.
  intros Ha Hb Hab.
  destruct (indexOf_spec text (lit "## Abstract"))
    as [[E _] | (k & Hk & _ & Hat & _)]; [lia|].
  assert (k = a) by lia. subst k.
  destruct (indexOf_spec text (lit "## I. The Core Framework"))
    as [[E _] | (k & Hk' & Hlen & Hat' & _)]; [lia|].
  assert (k = b) by lia. subst k.
  pose proof (markers_apart _ _ _ Hat Hat' Hab) as Hgap.
  unfold abstractSection. rewrite Ha, Hb.
  rewrite substring_in_range by done.
  apply startsWith_true in Hat as [r Hr].
  assert (Htake : take (b - a) (drop a text)
                  = lit "## Abstract" ++ take (b - (a + 11)) r).
  { rewrite Hr. rewrite take_app_ge by (simpl; lia).
    f_equal. f_equal. simpl. lia. }
  rewrite Htake, replaceFirst_prefix by apply startsWith_app.
  rewrite drop_app_length. cbn [app]. do 3 f_equal.
  rewrite <- drop_drop, Hr.
  change 11%nat with (length (lit "## Abstract")). by rewrite drop_app_length.
Qed.

(** The theorem at the document whose first section heading is the marker. *)
Lemma abstractSection_between_markers_witness :
  abstractSection docEmptyLastSection = mkSection (lit "Abstract") (lit "abs").
Proof.
  rewrite (abstractSection_between_markers docEmptyLastSection 0 16)
    by (vm_compute; reflexivity || lia).
  vm_compute. reflexivity.
Defined.

(** X3.  When the marker [## I. The Core Framework] does not occur, the
    content of the Abstract section is the trimmed text in front of the
    first Abstract heading, and empty when there is no such heading: what
    follows the heading is not extracted. *)
Theorem abstractSection_marker_missing (text : jsstring) :
  indexOf text (lit "## I. The Core Framework") = -1 ->
  abstractSection text
  = mkSection (lit "Abstract")
              (trim (take (Z.to_nat (indexOf text (lit "## Abstract"))) text)).
Proof.
  intros Hb. unfold abstractSection. rewrite Hb. do 2 f_equal.
  destruct (indexOf_spec text (lit "## Abstract"))
    as [[E _] | (k & Hk & Hlen & _ & Hbefore)].
  - rewrite E. rewrite substring_negative_end by lia.
    vm_compute. reflexivity.
  - rewrite Hk, substring_negative_end by lia. rewrite Nat2Z.id.
    apply replaceFirst_absent. intros j Hj.
    destruct (startsWith (drop j (take k text)) (lit "## Abstract")) eqn:Hs; [|done].
    apply startsWith_true in Hs as [r Hr].
    assert (Hjk : (j < k)%nat).
    { apply (f_equal length) in Hr.
      rewrite length_drop, length_take, length_app in Hr. simpl in Hr. lia. }
    rewrite <- (Hbefore j Hjk). symmetry. apply startsWith_true.
    exists (r ++ drop k text).
    rewrite <- (take_drop k text) at 1.
    rewrite drop_app_le by (rewrite length_take; lia).
    by rewrite Hr, <- app_assoc.
Qed.

(** The theorem at the scenario document with a title line in front. *)
Lemma abstractSection_marker_missing_witness :
  abstractSection (lit "# Title" ++ [LF] ++ docScenario)
  = mkSection (lit "Abstract") (lit "# Title").
Proof.
  rewrite (abstractSection_marker_missing (lit "# Title" ++ [LF] ++ docScenario))
    by (vm_compute; reflexivity).
  vm_compute. reflexivity.
Defined.

(** X4.  Every section after the first has a content that is not empty and
    neither begins nor ends with a whitespace character. *)
Theorem parseSections_contents_trimmed (text : jsstring) :
  Forall (fun s =>
            exists c d,
              head (content s) = Some c /\ last (content s) = Some d
              /\ isWhiteSpace c = false /\ isWhiteSpace d = false)
         (tail (parseSections text)).
Proof.
  rewrite parseSections_blocks. cbn [tail].
  apply Forall_map.
  eapply Forall_impl; [apply emitted_nonblank|].
  intros b Hb. unfold isBlank in Hb. apply negb_false_iff in Hb.
  unfold sectionOf. simpl.
  destruct (trim (blockBody b)) as [|c r] eqn:E; [done|].
  destruct (trim_ends _ _ _ E) as (Hc & d & Hd & Hdw).
  exists c, d. rewrite <- E. repeat split; try done. by rewrite E.
Qed.

(** ** Gateway: what reaches the remote service *)

(** X5.  Without a credential, be it undefined or the empty string, none
    of the three operations contacts the remote service: each logs the
    configuration message once; the two text operations resolve to that
    message and [generateQuiz] rejects with it. *)
Theorem no_credential_no_request (API_KEY : option jsstring)
    (GoogleGenAI : jsstring -> Gateway.Client)
    (JSON_parse : jsstring -> option JSON.value) (a b : jsstring) :
  API_KEY = None \/ API_KEY = Some [] ->
  Gateway.generateSummary API_KEY GoogleGenAI a b
  = ([Gateway.ConsoleError [Gateway.apiKeyMessage]],
     Gateway.Resolved (Some Gateway.apiKeyMessage))
  /\ Gateway.answerQuestion API_KEY GoogleGenAI a b
     = ([Gateway.ConsoleError [Gateway.apiKeyMessage]],
        Gateway.Resolved (Some Gateway.apiKeyMessage))
  /\ Gateway.generateQuiz API_KEY GoogleGenAI JSON_parse a
     = ([Gateway.ConsoleError [Gateway.apiKeyMessage]],
        Gateway.Rejected (Gateway.mkError Gateway.apiKeyMessage)).
Proof. by intros [-> | ->]. Qed.

(** The theorem at the empty credential. *)
Lemma no_credential_no_request_witness :
  requestsOf
    (Gateway.trace
       (Gateway.generateQuiz (Some []) (Gateway.answering (lit "{}"))
          Gateway.JSON_parse_model (lit "report")))
  = [].
Proof.
  destruct (no_credential_no_request (Some []) (Gateway.answering (lit "{}"))
              Gateway.JSON_parse_model (lit "report") (lit "report")
              (or_intror eq_refl)) as (_ & _ & ->).
  reflexivity.
Defined.

(** X6.  With a credential every operation sends exactly one request and
    never a second one, whatever the outcome: to the model
    [gemini-2.5-flash], with the prompt built from the arguments, and with
    the JSON schema for the quiz only.  [JSON.parse] is called at most once,
    and only on the trimmed response when it starts with a brace or a
    bracket; a response without text is never parsed. *)
Theorem one_request_per_operation (API_KEY : option jsstring)
    (GoogleGenAI : jsstring -> Gateway.Client)
    (JSON_parse : jsstring -> option JSON.value)
    (client : Gateway.Client) (a b : jsstring) :
  Gateway.ai API_KEY GoogleGenAI = Some client ->
  requestsOf (Gateway.trace (Gateway.generateSummary API_KEY GoogleGenAI a b))
  = [Gateway.mkRequest Gateway.modelName (Gateway.summaryPrompt a b) None]
  /\ requestsOf (Gateway.trace (Gateway.answerQuestion API_KEY GoogleGenAI a b))
     = [Gateway.mkRequest Gateway.modelName (Gateway.answerPrompt a b) None]
  /\ requestsOf (Gateway.trace (Gateway.generateQuiz API_KEY GoogleGenAI JSON_parse a))
     = [Gateway.mkRequest Gateway.modelName (Gateway.quizPrompt a)
          (Some Gateway.quizConfig)]
  /\ match client (Gateway.quizRequest a) with
     | Gateway.Text text =>
         parsesOf (Gateway.trace (Gateway.generateQuiz API_KEY GoogleGenAI JSON_parse a))
         = if Gateway.notJsonLike (trim text) then [] else [trim text]
     | Gateway.NoText | Gateway.Failure _ =>
         parsesOf (Gateway.trace (Gateway.generateQuiz API_KEY GoogleGenAI JSON_parse a))
         = []
     end.
Proof.
  intros Hai.
  unfold Gateway.generateSummary, Gateway.answerQuestion, Gateway.generateQuiz,
    Gateway.checkApiKey, Gateway.generateContent, Gateway.quizRequest,
    Gateway.notJsonLike.
  rewrite Hai. simpl.
  repeat split.
  - by destruct (client _).
  - by destruct (client _).
  - destruct (client _) as [text| |e]; simpl; [|done|done].
    destruct (negb _ && negb _); simpl; [done|].
    by destruct (JSON_parse _).
  - destruct (client _) as [text| |e]; simpl; [|done|done].
    destruct (negb _ && negb _); simpl; [done|].
    by destruct (JSON_parse _).
Qed.

(** The theorem at a client that answers with prose. *)
Lemma one_request_per_operation_witness :
  parsesOf
    (Gateway.trace
       (Gateway.generateQuiz Gateway.someKey (Gateway.answering (lit "Sorry."))
          Gateway.JSON_parse_model (lit "report")))
  = [].
Proof.
  destruct (one_request_per_operation Gateway.someKey
              (Gateway.answering (lit "Sorry.")) Gateway.JSON_parse_model
              (Gateway.answering (lit "Sorry.") (lit "key"))
              (lit "report") (lit "report") eq_refl) as (_ & _ & _ & H).
  exact H.
Defined.

(** ** Summaries view: navigation and requests *)

Section SummariesView.

Variable sections : list DocSection.

Local Abbreviation step := (Summaries.step sections).
Local Abbreviation useEffect := (Summaries.useEffect sections).

Lemma summariesView_useEffect st :
  Summaries.invariant st ->
  summariesView sections st -> summariesView sections (useEffect st).
Proof.
  intros [_ Hpl] Hv. unfold Summaries.useEffect.
  destruct (Summaries.currentSection sections st) as [cur|] eqn:Hcur; [|done].
  destruct (negb (truthyText _) && negb (truthyBool _)) eqn:Hg; [|done].
  apply useEffect_guard in Hg as [_ Hl].
  destruct Hv as [Hidx Hpend Hiss]. split; simpl; [done | |].
  - right. exists cur. split; [exact Hcur|].
    destruct Hpend as [-> | (cur' & Hc' & Hp)]; [done|].
    rewrite Hcur in Hc'. injection Hc' as <-.
    assert (Hin : title cur ∈ Summaries.pending st) by (rewrite Hp; left).
    apply Hpl in Hin. congruence.
  - intros t c [Hin | [= -> ->]%list_elem_of_singleton]%elem_of_app;
      [by apply Hiss|].
    destruct cur as [t c]. by eapply list_elem_of_lookup_2.
Qed.

Lemma summariesView_apply st ev :
  Summaries.invariant st ->
  summariesView sections st ->
  summariesView sections (Summaries.apply sections ev st).
Proof.
  intros [_ Hpl] Hv.
  assert (Hnav : truthyBool (member (Summaries.loading st)
                                    (Summaries.currentKey sections st)) = false ->
                 Summaries.pending st = []).
  { intros [Hl _]%truthyBool_false.
    destruct (pending_on_screen _ _ Hv) as [E | (cur & Hc & Hp)]; [done|].
    unfold Summaries.currentKey in Hl. rewrite Hc in Hl.
    assert (Hin : title cur ∈ Summaries.pending st) by (rewrite Hp; left).
    apply Hpl in Hin. congruence. }
  destruct ev as [| |i o]; simpl.
  - unfold Summaries.nextDisabled.
    destruct (truthyBool _) eqn:Hl; [by rewrite orb_true_r|].
    specialize (Hnav eq_refl).
    destruct (bool_decide _); simpl; [done|].
    unfold Summaries.handleNext. case_bool_decide as Hlt; [|done].
    destruct Hv as [Hidx _ Hiss]. split; simpl; [lia | by left | done].
  - unfold Summaries.prevDisabled.
    destruct (truthyBool _) eqn:Hl; [by rewrite orb_true_r|].
    specialize (Hnav eq_refl).
    destruct (bool_decide _); simpl; [done|].
    unfold Summaries.handlePrev. case_bool_decide as Hlt; [|done].
    destruct Hv as [Hidx _ Hiss]. split; simpl; [lia | by left | done].
  - unfold Summaries.settle.
    destruct (Summaries.pending st !! i) as [t|] eqn:Hi; [|done].
    destruct Hv as [Hidx Hpend Hiss]. split; simpl; [done | | done].
    left. destruct Hpend as [E | (cur & _ & Hp)].
    + by rewrite E in Hi.
    + rewrite Hp in Hi |- *. by destruct i as [|[|i]].
Qed.

Lemma summariesView_initial : summariesView sections Summaries.initial.
Proof.
  split; simpl; [lia | by left |]. by intros t c ?%elem_of_nil.
Qed.

Lemma summariesView_run evs :
  Summaries.invariant (Summaries.run sections evs)
  /\ summariesView sections (Summaries.run sections evs).
Proof.
  unfold Summaries.run.
  assert (Hm : Summaries.invariant (Summaries.mount sections)
               /\ summariesView sections (Summaries.mount sections)).
  { split.
    - apply summaries_invariant_useEffect, summaries_invariant_initial.
    - apply summariesView_useEffect;
        [apply summaries_invariant_initial | apply summariesView_initial]. }
  revert Hm. generalize (Summaries.mount sections) as st.
  induction evs as [|ev evs IH]; intros st [Hi Hv]; [done|].
  simpl. apply IH. split.
  - by apply summaries_invariant_step.
  - apply summariesView_useEffect.
    + by apply summaries_invariant_apply.
    + by apply summariesView_apply.
Qed.

(** X7.  The index never leaves the list: after any events it points at a
    section whenever there is one, so Next on the last section and Previous
    on the first change nothing. *)
Theorem summaries_index_in_range (evs : list Summaries.Event) :
  let st := Summaries.run sections evs in
  (Summaries.currentSectionIndex st <= length sections - 1)%nat
  /\ (sections <> [] -> is_Some (Summaries.currentSection sections st)).
Proof.
  intros st. destruct (summariesView_run evs) as [_ [Hidx _ _]]. fold st in Hidx.
  split; [done|]. intros Hne. apply lookup_lt_is_Some.
  destruct sections; [done|]. simpl in *. lia.
Qed.

(** X8.  At any time at most one summarize request is pending in the view,
    and it is the one for the section on screen: the buttons are disabled
    until it settles, so a result never arrives for a section the user has
    paged away from. *)
Theorem one_request_on_screen (evs : list Summaries.Event) :
  let st := Summaries.run sections evs in
  Summaries.pending st = []
  \/ exists cur, Summaries.currentSection sections st = Some cur
                 /\ Summaries.pending st = [title cur]
                 /\ step st Summaries.ClickNext = st
                 /\ step st Summaries.ClickPrev = st.
Proof.
  intros st. destruct (summariesView_run evs) as [[_ Hpl] Hv]. fold st in Hpl, Hv.
  destruct (pending_on_screen _ _ Hv) as [E | (cur & Hc & Hp)]; [by left|].
  right. exists cur. split; [done|]. split; [done|].
  assert (Hl : truthyFlag (Summaries.loading st !! title cur) = true).
  { apply Hpl. rewrite Hp. left. }
  assert (Hfix : useEffect st = st).
  { apply (useEffect_suppressed sections st cur Hc). by left. }
  unfold Summaries.step. simpl.
  unfold Summaries.nextDisabled, Summaries.prevDisabled, Summaries.currentKey.
  rewrite Hc, (truthyBool_own _ _ Hl), !orb_true_r. done.
Qed.

Lemma ownKeysPlain_useEffect st :
  Summaries.ownKeysPlain st -> Summaries.ownKeysPlain (useEffect st).
Proof.
  intros Hk. unfold Summaries.useEffect.
  destruct (Summaries.currentSection sections st) as [cur|]; [|done].
  destruct (negb (truthyText _) && negb (truthyBool _)) eqn:Hg; [|done].
  apply andb_prop in Hg as [Hs%negb_true_iff _].
  intros t Ht. destruct (Hk t Ht) as (Hsum & Hload & Hpend).
  assert (Hne : title cur <> t).
  { intros E. rewrite E in Hs. unfold member in Hs. by rewrite Hsum, Ht in Hs. }
  simpl. rewrite lookup_insert_ne by done. split; [done|]. split; [done|].
  intros [Hin| ->%list_elem_of_singleton]%elem_of_app; done.
Qed.

Lemma ownKeysPlain_apply st ev :
  Summaries.ownKeysPlain st ->
  Summaries.ownKeysPlain (Summaries.apply sections ev st).
Proof.
  intros Hk. destruct ev as [| |i o]; simpl.
  - destruct (Summaries.nextDisabled sections st); [done|].
    unfold Summaries.handleNext. by case_bool_decide.
  - destruct (Summaries.prevDisabled sections st); [done|].
    unfold Summaries.handlePrev. by case_bool_decide.
  - unfold Summaries.settle.
    destruct (Summaries.pending st !! i) as [t0|] eqn:Hi; [|done].
    intros t Ht. destruct (Hk t Ht) as (Hsum & Hload & Hpend).
    assert (Hne : t0 <> t).
    { intros ->. apply Hpend. by eapply list_elem_of_lookup_2. }
    simpl. rewrite !lookup_insert_ne by done. split; [done|]. split; [done|].
    intros Hin. apply Hpend. revert Hin.
    apply (sublist_subseteq _ _ (sublist_delete _ i)).
Qed.

(** Every state of a session is the result of the effect on cells without
    entries for inherited names. *)
Lemma run_after_effect evs :
  exists st0, Summaries.run sections evs = useEffect st0
              /\ Summaries.ownKeysPlain st0.
Proof.
  assert (H0 : Summaries.ownKeysPlain Summaries.initial).
  { intros t _. simpl. rewrite !lookup_empty. split; [done|]. split; [done|].
    by intros ?%elem_of_nil. }
  induction evs as [|ev evs (st0 & Hrun & Hk)] using rev_ind.
  - by exists Summaries.initial.
  - exists (Summaries.apply sections ev (Summaries.run sections evs)). split.
    + unfold Summaries.run. by rewrite fold_left_app.
    + apply ownKeysPlain_apply. rewrite Hrun. by apply ownKeysPlain_useEffect.
Qed.

(** X9.  Once the effect that follows a render has run, that is in every
    state between two events, the section on screen reads as loading, so
    that the spinner is shown, or it is not loading and has an own non-empty
    summary text, which is shown.  (The render committed just before the
    effect is not such a state: it can show an empty paragraph.) *)
Theorem summary_or_spinner (evs : list Summaries.Event) (cur : DocSection) :
  let st := Summaries.run sections evs in
  Summaries.currentSection sections st = Some cur ->
  truthyBool (member (Summaries.loading st) (title cur)) = true
  \/ (truthyBool (member (Summaries.loading st) (title cur)) = false
      /\ exists s, Summaries.summaries st !! title cur = Some (Some s)
                   /\ nonempty s = true).
Proof.
  intros st. subst st. destruct (run_after_effect evs) as (st0 & -> & Hk).
  unfold Summaries.useEffect.
  destruct (Summaries.currentSection sections st0) as [c|] eqn:Hc;
    [|by rewrite Hc].
  destruct (negb (truthyText _) && negb (truthyBool _)) eqn:Hg.
  - intros Hc'. change (Summaries.currentSection sections st0 = Some cur) in Hc'.
    rewrite Hc in Hc'. injection Hc' as ->. left. simpl.
    unfold member. by rewrite lookup_insert_eq.
  - rewrite Hc. intros [= ->].
    destruct (truthyBool (member (Summaries.loading st0) (title cur))) eqn:Hl;
      [by left|].
    right. split; [done|].
    rewrite ?Hl in Hg. cbn [negb] in Hg. rewrite andb_true_r in Hg.
    apply negb_false_iff in Hg.
    unfold member in Hg, Hl.
    destruct (Summaries.summaries st0 !! title cur) as [[s|]|] eqn:Hs;
      [by exists s | done |].
    destruct (inheritedMember (title cur)) eqn:Hin; [|done].
    destruct (Hk _ Hin) as (_ & Hload & _). by rewrite Hload in Hl.
Qed.

(** The cells as they are rendered before the first effect: the section on
    screen is neither loading nor summarized, and the paragraph is empty. *)
Lemma first_render_shows_nothing :
  Summaries.currentSection twoSections Summaries.initial
  = Some (mkSection (lit "Abstract") (lit "abs"))
  /\ truthyBool (member (Summaries.loading Summaries.initial) (lit "Abstract")) = false
  /\ member (Summaries.summaries Summaries.initial) (lit "Abstract") = Absent.
Proof. repeat split. Qed.

Lemma issuedPlain_useEffect st :
  Summaries.ownKeysPlain st -> issuedPlain st -> issuedPlain (useEffect st).
Proof.
  intros Hk Hi. unfold Summaries.useEffect.
  destruct (Summaries.currentSection sections st) as [cur|]; [|done].
  destruct (negb (truthyText _) && negb (truthyBool _)) eqn:Hg; [|done].
  apply andb_prop in Hg as [Hs%negb_true_iff _].
  intros t c. simpl.
  intros [Hin | [= -> ->]%list_elem_of_singleton]%elem_of_app; [by eapply Hi|].
  destruct (inheritedMember (title cur)) eqn:Ht; [|done].
  destruct (Hk _ Ht) as (Hsum & _). unfold member in Hs. by rewrite Hsum, Ht in Hs.
Qed.

Lemma issuedPlain_apply st ev :
  issuedPlain st -> issuedPlain (Summaries.apply sections ev st).
Proof.
  intros Hi. destruct ev as [| |i o]; simpl.
  - destruct (Summaries.nextDisabled sections st); [done|].
    unfold Summaries.handleNext. by case_bool_decide.
  - destruct (Summaries.prevDisabled sections st); [done|].
    unfold Summaries.handlePrev. by case_bool_decide.
  - unfold Summaries.settle. by destruct (Summaries.pending st !! i).
Qed.

Lemma plain_run evs :
  Summaries.ownKeysPlain (Summaries.run sections evs)
  /\ issuedPlain (Summaries.run sections evs).
Proof.
  assert (H0 : Summaries.ownKeysPlain Summaries.initial /\ issuedPlain Summaries.initial).
  { split.
    - intros t _. simpl. rewrite !lookup_empty. split; [done|]. split; [done|].
      by intros ?%elem_of_nil.
    - intros t c. simpl. by intros ?%elem_of_nil. }
  induction evs as [|ev evs [Hk Hi]] using rev_ind.
  - destruct H0 as [Hk Hi]. split;
      [by apply ownKeysPlain_useEffect | by apply issuedPlain_useEffect].
  - unfold Summaries.run. rewrite fold_left_app. simpl.
    fold (Summaries.run sections evs). unfold Summaries.step. split.
    + by apply ownKeysPlain_useEffect, ownKeysPlain_apply.
    + apply issuedPlain_useEffect;
        [by apply ownKeysPlain_apply | by apply issuedPlain_apply].
Qed.

(** X20.  A section whose title is the name of a member that object
    literals inherit, such as [constructor] or [toString], is never
    summarized: in every session no call is made for it and the
    dictionaries get no entry for it, while [summaries[title]] and
    [loading[title]] both read as truthy, so that its panel shows the
    spinner. *)
Theorem inherited_title_never_requested (evs : list Summaries.Event) (t : jsstring) :
  inheritedMember t = true ->
  let st := Summaries.run sections evs in
  Summaries.callsFor t st = 0%nat
  /\ Summaries.inFlight t st = 0%nat
  /\ member (Summaries.summaries st) t = Inherited
  /\ member (Summaries.loading st) t = Inherited
  /\ truthyText (member (Summaries.summaries st) t) = true
  /\ truthyBool (member (Summaries.loading st) t) = true.
Proof.
  intros Ht st. destruct (plain_run evs) as [Hk Hi]. fold st in Hk, Hi.
  destruct (Hk t Ht) as (Hsum & Hload & Hpend).
  assert (Hcalls : filter (fun c : jsstring * jsstring => c.1 = t) (Summaries.issued st) = []).
  { destruct (filter _ _) as [|[t' c] l] eqn:Hf; [done|].
    assert (Hin : (t', c) ∈ filter (fun c : jsstring * jsstring => c.1 = t)
                              (Summaries.issued st)) by (rewrite Hf; left).
    apply list_elem_of_filter in Hin as [E Hin]. simpl in E. subst t'.
    specialize (Hi _ _ Hin). congruence. }
  unfold Summaries.callsFor, Summaries.inFlight, member.
  rewrite Hcalls, Hsum, Hload, Ht, filter_eq_not_elem by done. done.
Qed.

(** X10.  Every call made is for a section of the list, with its own
    title and content. *)
Theorem requests_are_sections (evs : list Summaries.Event) (t c : jsstring) :
  (t, c) ∈ Summaries.issued (Summaries.run sections evs) ->
  mkSection t c ∈ sections.
Proof.
  destruct (summariesView_run evs) as [_ Hv]. apply (issued_from_sections _ _ Hv).
Qed.

Lemma callsFor_snoc t t' c st_issued :
  length (filter (fun x : jsstring * jsstring => x.1 = t) (st_issued ++ [(t', c)]))
  = (length (filter (fun x : jsstring * jsstring => x.1 = t) st_issued)
     + if decide (t' = t) then 1 else 0)%nat.
Proof.
  rewrite filter_app, length_app. f_equal.
  rewrite filter_cons. simpl. by destruct (decide (t' = t)).
Qed.

Lemma requestedOnce_step st ev :
  Summaries.invariant st ->
  settlesNonEmpty ev ->
  requestedOnce st -> requestedOnce (step st ev).
Proof.
  intros Hinv Hev Hk.
  assert (Hinv' : Summaries.invariant (Summaries.apply sections ev st))
    by (by apply summaries_invariant_apply).
  assert (Hk' : requestedOnce (Summaries.apply sections ev st)).
  { destruct ev as [| |i o]; simpl.
    - destruct (Summaries.nextDisabled sections st); [done|].
      unfold Summaries.handleNext. by case_bool_decide.
    - destruct (Summaries.prevDisabled sections st); [done|].
      unfold Summaries.handlePrev. by case_bool_decide.
    - unfold Summaries.settle.
      destruct (Summaries.pending st !! i) as [t0|] eqn:Hi; [|done].
      intros t. destruct (Hk t) as [Hle Hone]. split; [exact Hle|].
      unfold Summaries.callsFor. simpl. intros H1.
      destruct (decide (t = t0)) as [->|Hne].
      + right. rewrite lookup_insert_eq. exact Hev.
      + rewrite lookup_insert_ne by done.
        destruct (Hone H1) as [Hin|Hs]; [|by right].
        left. apply (elem_of_delete_NoDup _ i t0 t); [apply Hinv | done | done]. }
  unfold Summaries.step. clear Hk Hinv Hev. revert Hinv' Hk'.
  generalize (Summaries.apply sections ev st) as st1. intros st1 [_ Hpl] Hk.
  unfold Summaries.useEffect.
  destruct (Summaries.currentSection sections st1) as [cur|]; [|done].
  destruct (negb (truthyText _) && negb (truthyBool _)) eqn:Hg; [|done].
  apply useEffect_guard in Hg as [Hs Hl].
  assert (Hzero : Summaries.callsFor (title cur) st1 = 0%nat).
  { destruct (Hk (title cur)) as [Hle Hone].
    destruct (decide (Summaries.callsFor (title cur) st1 = 1%nat)) as [H1|]; [|lia].
    destruct (Hone H1) as [Hin|Hs']; [|congruence].
    apply Hpl in Hin. congruence. }
  intros t. destruct (Hk t) as [Hle Hone].
  unfold Summaries.callsFor in *. simpl. rewrite callsFor_snoc.
  destruct (decide (title cur = t)) as [<-|Hne].
  - split; [lia|]. intros _. left. apply elem_of_app. right. left.
  - rewrite Nat.add_0_r. split; [done|]. intros H1.
    destruct (Hone H1) as [Hin|Hs']; [|by right].
    left. apply elem_of_app. by left.
Qed.

Lemma requestedOnce_mount : requestedOnce (Summaries.mount sections).
Proof.
  assert (H0 : requestedOnce Summaries.initial).
  { intros t. unfold Summaries.callsFor. simpl. split; [lia | done]. }
  unfold Summaries.mount, Summaries.useEffect.
  destruct (Summaries.currentSection sections Summaries.initial) as [cur|];
    [|done].
  destruct (negb (truthyText _) && negb (truthyBool _)); [|done].
  intros t. unfold Summaries.callsFor. simpl. rewrite filter_cons. simpl.
  destruct (decide (title cur = t)) as [<-|]; simpl.
  - split; [lia|]. intros _. left. left.
  - split; [lia | done].
Qed.

(** X11.  As long as no call settles with an empty text, every title is
    requested at most once in a mounted view, however the user pages. *)
Theorem each_title_requested_once (evs : list Summaries.Event) (t : jsstring) :
  Forall settlesNonEmpty evs ->
  (Summaries.callsFor t (Summaries.run sections evs) <= 1)%nat.
Proof.
  intros Hevs.
  assert (H : requestedOnce (Summaries.run sections evs)).
  { unfold Summaries.run.
    assert (Hm : Summaries.invariant (Summaries.mount sections))
      by apply summaries_invariant_useEffect, summaries_invariant_initial.
    pose proof requestedOnce_mount as Hk. revert Hm Hk.
    generalize (Summaries.mount sections) as st.
    induction Hevs as [|ev evs Hev _ IH]; intros st Hm Hk; [done|].
    simpl. apply IH.
    - by apply summaries_invariant_step.
    - by apply requestedOnce_step. }
  apply H.
Qed.

End SummariesView.

(** The theorem at the session that ends on Abstract with its stored text. *)
Lemma summary_or_spinner_witness :
  let st := Summaries.run twoSections failThenReturn in
  truthyBool (member (Summaries.loading st) (lit "Abstract")) = true
  \/ (truthyBool (member (Summaries.loading st) (lit "Abstract")) = false
      /\ exists s, Summaries.summaries st !! lit "Abstract" = Some (Some s)
                   /\ nonempty s = true).
Proof.
  apply (summary_or_spinner twoSections failThenReturn
           (mkSection (lit "Abstract") (lit "abs"))).
  vm_compute. reflexivity.
Defined.

(** The theorem at a list whose second section is titled [constructor]:
    paging to it makes no call. *)
Lemma inherited_title_never_requested_witness :
  Summaries.callsFor (lit "constructor")
    (Summaries.run constructorSection
       [Summaries.Settle 0 (Gateway.Resolved (Some (lit "summary"))); Summaries.ClickNext])
  = 0%nat.
Proof.
  destruct (inherited_title_never_requested constructorSection
              [Summaries.Settle 0 (Gateway.Resolved (Some (lit "summary")));
               Summaries.ClickNext]
              (lit "constructor") ltac:(vm_compute; reflexivity)) as [H _].
  exact H.
Defined.

(** The theorem at the first call of a session. *)
Lemma requests_are_sections_witness :
  mkSection (lit "I. X") (lit "foo") ∈ twoSections.
Proof.
  apply (requests_are_sections twoSections failThenReturn).
  apply (bool_decide_unpack _). vm_compute. reflexivity.
Defined.

(** The theorem at the session in which the first summary fails. *)
Lemma each_title_requested_once_witness :
  (Summaries.callsFor (lit "Abstract")
     (Summaries.run twoSections failThenReturn) <= 1)%nat.
Proof.
  apply (each_title_requested_once twoSections failThenReturn).
  repeat constructor.
Defined.

(** ** Q&A component *)

Section QnAFacts.

Variable reportText : jsstring.

Lemma qna_invariant_step st ev :
  QnA.invariant reportText st -> QnA.invariant reportText (QnA.step reportText st ev).
Proof.
  intros Hinv. pose proof (QnA.qna_pending _ _ Hinv) as Hp.
  destruct ev as [v| |i o]; simpl.
  - unfold QnA.editDisabled. destruct (QnA.loading st) eqn:Hl; [done|].
    split; simpl; rewrite ?Hl; done.
  - unfold QnA.askDisabled, QnA.handleAsk.
    destruct (QnA.loading st) eqn:Hl; [done|]. simpl.
    destruct (QnA.blank st) eqn:Hb; [done|].
    split; simpl.
    + by rewrite Hp.
    + done.
    + intros _. unfold QnA.blank in Hb. by apply negb_false_iff in Hb.
    + intros _. by rewrite last_snoc.
  - unfold QnA.settle.
    destruct (QnA.pending st !! i) as [q|] eqn:Hi; [|done].
    destruct (QnA.loading st) eqn:Hl; [|by rewrite Hp in Hi].
    rewrite Hp in Hi |- *.
    destruct i as [|i]; [|done].
    split; simpl; done.
Qed.

Lemma qna_invariant_run evs : QnA.invariant reportText (QnA.run reportText evs).
Proof.
  unfold QnA.run.
  assert (H0 : QnA.invariant reportText QnA.initial) by (by split).
  revert H0. generalize QnA.initial as st.
  induction evs as [|ev evs IH]; intros st H; [done|].
  simpl. by apply IH, qna_invariant_step.
Qed.

(** X12.  At most one question is in flight.  While it is, it is the last
    call made, for the non-blank question still shown in the box, the
    previous answer is cleared, and neither editing nor asking again does
    anything; a blank question is never sent. *)
Theorem qna_one_question_in_flight (evs : list QnA.Event) :
  let st := QnA.run reportText evs in
  QnA.pending st = (if QnA.loading st then [QnA.question st] else [])
  /\ Forall (fun c => nonempty (trim c.2) = true /\ c.1 = reportText) (QnA.issued st)
  /\ (QnA.loading st = true ->
      QnA.answer st = Some []
      /\ last (QnA.issued st) = Some (reportText, QnA.question st)
      /\ QnA.step reportText st QnA.ClickAsk = st
      /\ forall v, QnA.step reportText st (QnA.EditQuestion v) = st)
  /\ (nonempty (trim (QnA.question st)) = false ->
      QnA.step reportText st QnA.ClickAsk = st).
Proof.
  intros st. pose proof (qna_invariant_run evs) as Hinv. fold st in Hinv.
  split; [apply Hinv|]. split; [|split].
  - clear Hinv. subst st. unfold QnA.run.
    assert (H0 : Forall (fun c : jsstring * jsstring =>
                           nonempty (trim c.2) = true /\ c.1 = reportText)
                        (QnA.issued QnA.initial)) by constructor.
    revert H0. generalize QnA.initial as s.
    induction evs as [|ev evs IH]; intros s H; [done|].
    cbn [fold_left]. apply IH. destruct ev as [v| |i o]; cbn [QnA.step].
    + destruct (QnA.editDisabled s); exact H.
    + destruct (QnA.askDisabled s); [exact H|]. unfold QnA.handleAsk.
      destruct (QnA.blank s) eqn:Hb; [exact H|]. cbn [QnA.issued].
      apply Forall_app. split; [done|]. repeat constructor.
      unfold QnA.blank in Hb. by apply negb_false_iff in Hb.
    + unfold QnA.settle. destruct (QnA.pending s !! i); exact H.
  - intros Hl. split; [by apply Hinv|]. split; [by apply Hinv|].
    simpl. unfold QnA.askDisabled, QnA.editDisabled. by rewrite Hl.
  - intros Hb. simpl. unfold QnA.askDisabled, QnA.blank.
    rewrite Hb. simpl. by rewrite orb_true_r.
Qed.


End QnAFacts.


(** ** Quiz store: answers, score and moves *)

Lemma answersAreOptions_step st ev :
  Quiz.invariant st -> answersAreOptions st -> answersAreOptions (Quiz.step st ev).
Proof.
  intros Hinv Ha. destruct ev as [|qi oi| |o]; cbn [Quiz.step].
  - destruct (Quiz.startDisabled st); [done|].
    intros k a Hk. simpl in Hk. by rewrite lookup_empty in Hk.
  - destruct (Quiz.answering st); [|done].
    destruct (Quiz.questions st !! qi) as [q|] eqn:Hq; simpl; [|done].
    destruct (options q !! oi) as [opt|] eqn:Ho; [|done].
    intros k a. simpl. destruct (decide (k = qi)) as [->|Hne].
    + rewrite lookup_insert_eq. intros [= <-]. exists q. split; [done|].
      by eapply list_elem_of_lookup_2.
    + rewrite lookup_insert_ne by done. apply Ha.
  - by destruct (Quiz.submitEnabled st).
  - unfold Quiz.settle. destruct (Quiz.pending st) as [|n] eqn:Hp; [done|].
    pose proof (Quiz.quiz_pending _ Hinv) as Hp'. rewrite Hp in Hp'.
    destruct (Quiz.loading st) eqn:Hl; [|done].
    destruct (Quiz.quiz_loading_clean _ Hinv Hl) as (_ & Hu & _).
    assert (Hnone : forall k a, Quiz.userAnswers st !! k = Some a -> False).
    { intros k a Hk. by rewrite Hu, lookup_empty in Hk. }
    destruct o as [[[[qs|]]|]|e]; intros k a Hk; simpl in Hk;
      by destruct (Hnone k a).
Qed.

Lemma answersAreOptions_run evs : answersAreOptions (Quiz.run evs).
Proof.
  unfold Quiz.run.
  assert (H0 : answersAreOptions Quiz.initial).
  { intros k a Hk. simpl in Hk. by rewrite lookup_empty in Hk. }
  pose proof quiz_invariant_initial as Hi. revert Hi H0.
  generalize Quiz.initial as st.
  induction evs as [|ev evs IH]; intros st Hi Ha; [done|].
  simpl. apply IH; [by apply quiz_invariant_step | by apply answersAreOptions_step].
Qed.

(** X14.  Every answer the store records, in whatever state it is, is one
    of the options of the question at that index. *)
Theorem recorded_answers_are_options (evs : list Quiz.Event) (k : nat) (a : jsstring) :
  Quiz.userAnswers (Quiz.run evs) !! k = Some a ->
  exists q, Quiz.questions (Quiz.run evs) !! k = Some q /\ a ∈ options q.
Proof. apply answersAreOptions_run. Qed.

(** The theorem at the second answer of the sample session. *)
Lemma recorded_answers_are_options_witness :
  exists q, Quiz.questions (Quiz.run sampleQuizSession) !! 1%nat = Some q
            /\ lit "B" ∈ options q.
Proof.
  apply (recorded_answers_are_options sampleQuizSession 1 (lit "B")).
  vm_compute. reflexivity.
Defined.

Lemma scoreFrom_answerable answers qs : forall k score,
  (forall i q a, qs !! i = Some q -> answers !! (k + i)%nat = Some a -> a ∈ options q) ->
  (Quiz.scoreFrom answers k qs score <= score + length (answerable qs))%nat.
Proof.
  induction qs as [|q qs IH]; intros k score Hopt; simpl; [lia|].
  assert (Htail : forall i q' a, qs !! i = Some q' ->
                                 answers !! (S k + i)%nat = Some a -> a ∈ options q').
  { intros i q' a Hq Ha. apply (Hopt (S i) q' a); [done|].
    by replace (k + S i)%nat with (S k + i)%nat by lia. }
  specialize (IH (S k) (if bool_decide (answers !! k = Some (correctAnswer q))
                        then S score else score) Htail).
  unfold answerable in *. rewrite filter_cons.
  case_bool_decide as Hm.
  - rewrite decide_True; [simpl; lia|].
    apply (Hopt 0%nat q (correctAnswer q)); [done|].
    by rewrite Nat.add_0_r.
  - destruct (decide _); simpl; lia.
Qed.

(** X15.  The score never exceeds the number of questions whose
    [correctAnswer] is one of their own options: a question whose correct
    answer is not offered can not be scored. *)
Theorem score_counts_answerable_questions (evs : list Quiz.Event) :
  let st := Quiz.run evs in
  (Quiz.calculateScore st <= length (answerable (Quiz.questions st)))%nat
  /\ (length (answerable (Quiz.questions st)) <= length (Quiz.questions st))%nat.
Proof.
  intros st. split; [|apply length_filter].
  unfold Quiz.calculateScore.
  apply (scoreFrom_answerable (Quiz.userAnswers st) (Quiz.questions st) 0 0).
  intros i q a Hq Ha.
  destruct (answersAreOptions_run evs i a Ha) as (q' & Hq' & Hin).
  fold st in Hq'. congruence.
Qed.

(** X16.  When [generateQuiz] raises while the store is loading, the store
    ends in Empty with no questions and one more alert, whose text is the
    prefix followed by the configuration message or by the generic quiz
    failure; a resolved value without a quiz does the same with the
    format message. *)
Theorem quiz_failure_returns_to_empty (evs : list Quiz.Event)
    (API_KEY : option jsstring) (GoogleGenAI : jsstring -> Gateway.Client)
    (JSON_parse : jsstring -> option JSON.value) (reportText : jsstring)
    (e : Gateway.Error) :
  let st := Quiz.run evs in
  Quiz.loading st = true ->
  Gateway.settles (Gateway.generateQuiz API_KEY GoogleGenAI JSON_parse reportText)
  = Gateway.Rejected e ->
  let st' := Quiz.step st (Quiz.Settle (Gateway.Rejected e)) in
  Quiz.phase st' = Quiz.Empty
  /\ Quiz.questions st' = []
  /\ Quiz.pending st' = 0%nat
  /\ Quiz.alerts st' = Quiz.alerts st ++ [lit "Failed to generate quiz: " ++ Gateway.message e]
  /\ (Gateway.message e = Gateway.apiKeyMessage
      \/ Gateway.message e = Gateway.quizFailure)
  /\ (forall d, d = None \/ d = Some (Quiz.mkQuizData None) ->
      let st'' := Quiz.step st (Quiz.Settle (Gateway.Resolved d)) in
      Quiz.phase st'' = Quiz.Empty
      /\ Quiz.alerts st''
         = Quiz.alerts st
           ++ [lit "Failed to generate quiz: " ++ lit "Invalid quiz data format."]).
Proof.
  intros st Hl Hrej.
  pose proof (quiz_invariant_run evs) as Hinv. fold st in Hinv.
  pose proof (Quiz.quiz_pending _ Hinv) as Hp. rewrite Hl in Hp.
  destruct (Quiz.quiz_loading_clean _ Hinv Hl) as (Hq & Hu & Hs).
  assert (Hsettle : forall o,
             Quiz.step st (Quiz.Settle o)
             = match o with
               | Gateway.Resolved (Some (Quiz.mkQuizData (Some qs))) =>
                   Quiz.mkState qs false ∅ false 0 (Quiz.issued st) (Quiz.alerts st)
               | Gateway.Resolved _ =>
                   Quiz.mkState [] false ∅ false 0 (Quiz.issued st)
                     (Quiz.alerts st
                      ++ [lit "Failed to generate quiz: " ++ lit "Invalid quiz data format."])
               | Gateway.Rejected e' =>
                   Quiz.mkState [] false ∅ false 0 (Quiz.issued st)
                     (Quiz.alerts st
                      ++ [lit "Failed to generate quiz: " ++ Gateway.message e'])
               end).
  { intros o. cbn [Quiz.step]. unfold Quiz.settle. rewrite Hp, Hq, Hu, Hs.
    by destruct o as [[[[qs|]]|]|e']. }
  intros st'. subst st'. rewrite Hsettle.
  split; [done|]. split; [done|]. split; [done|]. split; [done|]. split.
  - rewrite generateQuiz_settles in Hrej.
    destruct (Gateway.ai API_KEY GoogleGenAI) as [client|].
    + right. destruct (client _) as [text| |e'].
      * destruct (Gateway.notJsonLike _); [by injection Hrej as <-|].
        destruct (JSON_parse _); [done | by injection Hrej as <-].
      * by injection Hrej as <-.
      * by injection Hrej as <-.
    + left. by injection Hrej as <-.
  - intros d Hd st''. subst st''. rewrite Hsettle.
    by destruct Hd as [-> | ->].
Qed.

(** The theorem at a remote that answers with prose. *)
Lemma quiz_failure_returns_to_empty_witness :
  Quiz.alerts
    (Quiz.step (Quiz.run [Quiz.ClickStart])
       (Quiz.Settle (Gateway.Rejected (Gateway.mkError Gateway.quizFailure))))
  = [lit "Failed to generate quiz: " ++ Gateway.quizFailure].
Proof.
  destruct (quiz_failure_returns_to_empty [Quiz.ClickStart] Gateway.someKey
              (Gateway.answering (lit "Sorry.")) Gateway.JSON_parse_model
              (lit "report") (Gateway.mkError Gateway.quizFailure)
              eq_refl ltac:(vm_compute; reflexivity))
    as (_ & _ & _ & H & _).
  exact H.
Defined.

(** X17.  The store moves between its four states only along these lines:
    from Empty to Loading; from Loading to Empty or InProgress; from
    InProgress to Submitted or Loading; from Submitted to Loading; or it
    stays where it is.  In Submitted every event other than the start of a
    new quiz leaves the whole store as it is: questions, answers and with
    them the score cannot change after submission without a new quiz. *)
Theorem quiz_phase_moves (evs : list Quiz.Event) (ev : Quiz.Event) :
  let st := Quiz.run evs in
  quizTransition (Quiz.phase st) (Quiz.phase (Quiz.step st ev)) = true
  /\ (Quiz.phase st = Quiz.Submitted ->
      ev <> Quiz.ClickStart ->
      Quiz.step st ev = st
      /\ Quiz.calculateScore (Quiz.step st ev) = Quiz.calculateScore st).
Proof.
  intros st0. subst st0.
  pose proof (quiz_invariant_run evs) as Hinv.
  set (st := Quiz.run evs) in *.
  assert (Hrefl : forall p, quizTransition p p = true) by (by intros []).
  split.
  - destruct ev as [|qi oi| |o]; cbn [Quiz.step].
    + unfold Quiz.startDisabled. destruct (Quiz.loading st) eqn:Hl; [apply Hrefl|].
      unfold Quiz.phase at 2. simpl.
      unfold Quiz.phase. rewrite Hl.
      destruct (Quiz.showResults st); [done|]. by case_bool_decide.
    + destruct (Quiz.answering st) eqn:Ha; [|apply Hrefl].
      destruct (Quiz.questions st !! qi) as [q|]; simpl; [|apply Hrefl].
      destruct (options q !! oi); [|apply Hrefl].
      unfold Quiz.phase. simpl. apply Hrefl.
    + destruct (Quiz.submitEnabled st) eqn:He; [|apply Hrefl].
      apply andb_prop in He as [Ha _].
      pose proof (answering_not_loading _ Hinv Ha) as Hl.
      unfold Quiz.answering in Ha. apply andb_prop in Ha as [Hq Hs%negb_true_iff].
      apply bool_decide_eq_true in Hq.
      unfold Quiz.phase. simpl. rewrite Hl, Hs.
      case_bool_decide as Hnil; [|done]. rewrite Hnil in Hq. simpl in Hq. lia.
    + unfold Quiz.settle. destruct (Quiz.pending st) as [|n] eqn:Hp; [apply Hrefl|].
      pose proof (Quiz.quiz_pending _ Hinv) as Hp'. rewrite Hp in Hp'.
      destruct (Quiz.loading st) eqn:Hl; [|done].
      destruct (Quiz.quiz_loading_clean _ Hinv Hl) as (Hq & _ & Hs).
      destruct o as [[[[qs|]]|]|e]; unfold Quiz.phase; simpl; rewrite Hl, Hs, ?Hq;
        by repeat case_bool_decide.
  - intros Hph Hev.
    assert (Hstate : Quiz.loading st = false /\ Quiz.showResults st = true).
    { unfold Quiz.phase in Hph. destruct (Quiz.loading st); [done|].
      destruct (Quiz.showResults st); [done|]. by case_bool_decide. }
    destruct Hstate as [Hl Hs].
    assert (Hsame : Quiz.step st ev = st); [|by rewrite Hsame].
    destruct ev as [|qi oi| |o]; cbn [Quiz.step]; [done| | |].
    + unfold Quiz.answering. by rewrite Hs, andb_false_r.
    + unfold Quiz.submitEnabled, Quiz.answering. by rewrite Hs, andb_false_r.
    + unfold Quiz.settle.
      pose proof (Quiz.quiz_pending _ Hinv) as Hp. rewrite Hl in Hp. by rewrite Hp.
Qed.

(** The theorem at a submitted session: a late click on an option changes
    nothing. *)
Lemma quiz_phase_moves_witness :
  let st := Quiz.run (sampleQuizSession ++ [Quiz.ClickSubmit]) in
  Quiz.step st (Quiz.ClickOption 1 2) = st.
Proof.
  destruct (quiz_phase_moves (sampleQuizSession ++ [Quiz.ClickSubmit])
              (Quiz.ClickOption 1 2)) as [_ H].
  destruct (H ltac:(vm_compute; reflexivity) ltac:(discriminate)) as [Hsame _].
  exact Hsame.
Defined.

(** ** Search highlight *)

Lemma syntax_characters_agree c :
  FullReport.isSyntaxCharacter c = FullReport.isPatternSyntax c.
Proof.
  unfold FullReport.isSyntaxCharacter, FullReport.isPatternSyntax.
  apply bool_decide_ext.
  let l := eval vm_compute in (lit ".*+?^${}()|[]" ++ [92%N]) in
  change (lit ".*+?^${}()|[]" ++ [92%N]) with l.
  let l := eval vm_compute in (lit "^$.*+?()[]{}|" ++ [92%N]) in
  change (lit "^$.*+?()[]{}|" ++ [92%N]) with l.
  rewrite !elem_of_cons, !elem_of_nil. tauto.
Qed.

(** X18.  The pattern built from a search term is a sequence of literal
    atoms that spells the term: every syntax character of the pattern
    grammar is preceded by a backslash and nothing else is changed, so no
    term is read as an operator, a group or a class. *)
Theorem escaped_term_is_literal (searchTerm : jsstring) :
  FullReport.literalAtoms (FullReport.escapeSearchTerm searchTerm) = Some searchTerm.
Proof.
  induction searchTerm as [|c s IH]; [done|].
  cbn [FullReport.escapeSearchTerm].
  destruct (FullReport.isSyntaxCharacter c) eqn:Hc.
  - cbn [FullReport.literalAtoms]. rewrite bool_decide_eq_true_2 by done.
    rewrite <- syntax_characters_agree, Hc, IH. done.
  - cbn [FullReport.literalAtoms].
    rewrite bool_decide_eq_false_2.
    + rewrite <- syntax_characters_agree, Hc, IH. done.
    + intros ->. vm_compute in Hc. discriminate.
Qed.

(** ** Sectionizer: headings stay out of the contents *)

Lemma trimStart_ws_prefix s :
  exists pre, s = pre ++ trimStart s /\ Forall (fun c => isWhiteSpace c = true) pre.
Proof.
  induction s as [|c s (pre & IH & Hpre)]; [by exists []|].
  simpl. destruct (isWhiteSpace c) eqn:Hc.
  - exists (c :: pre). split; [simpl; congruence | by constructor].
  - by exists [].
Qed.

(** [trim] takes whitespace off both ends and nothing else. *)
Lemma trim_decompose s :
  exists pre suf,
    s = pre ++ trim s ++ suf
    /\ Forall (fun c => isWhiteSpace c = true) pre
    /\ Forall (fun c => isWhiteSpace c = true) suf.
Proof.
  destruct (trimStart_ws_prefix s) as (pre & Hs & Hpre).
  destruct (trimStart_ws_prefix (rev (trimStart s))) as (suf & Hr & Hsuf).
  exists pre, (rev suf). split; [|split; [done|]].
  - unfold trim, trimEnd. rewrite <- rev_app_distr, <- Hr, rev_involutive. done.
  - apply Forall_forall. intros c Hc. apply list_elem_of_In, in_rev in Hc.
    rewrite Forall_forall in Hsuf. by apply Hsuf, list_elem_of_In.
Qed.

Lemma trim_cons_ws c s : isWhiteSpace c = true -> trim (c :: s) = trim s.
Proof. intros Hc. unfold trim. simpl. by rewrite Hc. Qed.

Lemma headingFree_drop_first c s :
  isWhiteSpace c = true -> headingFree (c :: s) -> headingFree s.
Proof.
  intros Hc. unfold headingFree. cbn [split_lines].
  case_bool_decide as Hlf; [by inversion 1|].
  pose proof (split_lines_nonempty s) as Hne.
  destruct (split_lines s) as [|l ls]; [done|].
  inversion 1 as [|? ? Hl Hls]; subst. constructor; [|done].
  unfold isHeadingLine in *. by rewrite trim_cons_ws in Hl.
Qed.

(** The lines of a text that grows by one character other than a line
    feed: the last line grows by it. *)
Lemma split_lines_snoc c s :
  c <> LF ->
  exists init final,
    split_lines s = init ++ [final]
    /\ split_lines (s ++ [c]) = init ++ [final ++ [c]].
Proof.
  intros Hc. induction s as [|d s (init & final & Hs & Hsc)].
  - exists [], []. split; [done|]. simpl. by rewrite bool_decide_eq_false_2.
  - cbn [app split_lines]. case_bool_decide as Hd.
    + exists ([] :: init), final. by rewrite Hs, Hsc.
    + rewrite Hs, Hsc. destruct init as [|i0 init].
      * by exists [], (d :: final).
      * by exists ((d :: i0) :: init), final.
Qed.

Lemma headingFree_drop_last c s :
  isWhiteSpace c = true -> headingFree (s ++ [c]) -> headingFree s.
Proof.
  intros Hc. unfold headingFree.
  destruct (decide (c = LF)) as [->|Hlf].
  - change (s ++ [LF]) with (s ++ LF :: []). rewrite split_lines_app.
    by intros [H _]%Forall_app.
  - destruct (split_lines_snoc c s Hlf) as (init & final & -> & ->).
    intros [Hi Hf]%Forall_app. apply Forall_app. split; [done|].
    inversion Hf as [|? ? Hl _]; subst. repeat constructor.
    unfold isHeadingLine in *. by rewrite trim_snoc in Hl.
Qed.

(** Trimming a text without heading lines leaves one without. *)
Lemma headingFree_trim s : headingFree s -> headingFree (trim s).
Proof.
  destruct (trim_decompose s) as (pre & suf & Hs & Hpre & Hsuf).
  intros H. rewrite Hs in H. clear Hs.
  assert (Hmid : headingFree (trim s ++ suf)).
  { induction Hpre as [|c pre Hc _ IH]; [done|].
    apply IH. by apply (headingFree_drop_first c). }
  clear H. revert Hsuf Hmid.
  induction suf as [|c suf IH] using rev_ind; intros Hsuf Hmid.
  - by rewrite app_nil_r in Hmid.
  - apply Forall_app in Hsuf as [Hsuf Hc]. apply IH; [done|].
    rewrite app_assoc in Hmid. apply (headingFree_drop_last c); [|done].
    by inversion Hc.
Qed.

Lemma split_lines_one l : LF ∉ l -> split_lines l = [l].
Proof.
  induction l as [|c l IH]; [done|].
  intros [Hc Hl]%not_elem_of_cons. cbn [split_lines].
  rewrite bool_decide_eq_false_2 by done. by rewrite IH.
Qed.

Lemma headingFree_bodyText lines :
  Forall (fun l => LF ∉ l) lines -> headingFree (bodyText lines).
Proof.
  induction 1 as [|l ls Hl _ IH]; cbn [bodyText].
  - repeat constructor.
  - destruct (isHeadingLine l) eqn:Hh; [repeat constructor|].
    unfold headingFree. cbn [app]. rewrite split_lines_app, split_lines_one by done.
    by constructor.
Qed.

Lemma headingFree_blocks lines :
  Forall (fun l => LF ∉ l) lines ->
  Forall (fun b => headingFree (blockBody b)) (headingBlocks lines).
Proof.
  induction 1 as [|l ls Hl Hls IH]; cbn [headingBlocks]; [constructor|].
  destruct (isHeadingLine l); [|done].
  constructor; [|done]. by apply headingFree_bodyText.
Qed.

(** X19.  No line of the content of a section after the first is a heading
    line: a heading opens a section and never becomes part of the text of
    one, also after the trimming of the content. *)
Theorem parseSections_contents_without_headings (text : jsstring) :
  Forall (fun s => headingFree (content s)) (tail (parseSections text)).
Proof.
  rewrite parseSections_blocks. cbn [tail]. apply Forall_map.
  pose proof (split_lines_no_LF text) as Hlf.
  assert (Hall : Forall (fun b => headingFree (blockBody b))
                        (allBlocks (split_lines text))).
  { constructor; [by apply headingFree_bodyText | by apply headingFree_blocks]. }
  assert (Hem : Forall (fun b => headingFree (blockBody b))
                       (emitted (allBlocks (split_lines text)))).
  { rewrite Forall_forall in Hall |- *. intros b Hb. apply Hall.
    by apply (sublist_subseteq _ _ (emitted_sublist _)). }
  eapply Forall_impl; [exact Hem|].
  intros b Hb. by apply headingFree_trim.
Qed.
